(** * poly-watcher: a shallow embedding of [main.go]

    The watcher polls a directory tree, fingerprints it with FNV-1a,
    and on a change runs a dependency command, a build command and
    restarts the application process.  This development embeds
    [shouldProcess], [hashDir], [runShell], [runBuild], [startApp],
    the loop of [Run] and the watcher that [main] builds from its
    flags, and states the properties of the design document about
    them. *)

From Stdlib Require Import Bool List ZArith Lia.
From Stdlib Require Import Strings.Ascii Strings.String.
From Stdlib Require Import Numbers.DecimalString.
Import ListNotations.

Open Scope bool_scope.
Open Scope list_scope.
Open Scope string_scope.

(* ================================================================= *)
(** ** Go strings: [strings.HasPrefix] and [strings.HasSuffix] *)

(** [len(s) >= len(prefix) && s[:len(prefix)] == prefix] *)
Definition HasPrefix (s prefix : string) : bool :=
  (String.length prefix <=? String.length s)%nat
  && (substring 0 (String.length prefix) s =? prefix).

(** [len(s) >= len(suffix) && s[len(s)-len(suffix):] == suffix] *)
Definition HasSuffix (s suffix : string) : bool :=
  (String.length suffix <=? String.length s)%nat
  && (substring (String.length s - String.length suffix)
                (String.length suffix) s =? suffix).

(** What the two tests mean. *)
Definition isPrefixOf (rule path : string) : Prop :=
  exists rest, path = rule ++ rest.

Definition isSuffixOf (rule path : string) : Prop :=
  exists front, path = front ++ rule.

Definition ruleMatches (path rule : string) : Prop :=
  isPrefixOf rule path \/ isSuffixOf rule path.

(* ================================================================= *)
(** ** [time.Time], [os.FileInfo] and the [Watcher] struct *)

(** [time.Time] is a struct of a wall-clock word, an extension word and
    a location pointer; Go's [!=] on it compares the three fields. *)
Record Time : Type := mkTime {
  wall : Z;
  ext  : Z;
  loc  : option nat
}.

(** The zero value, which [prevDepMTime] holds in a new [Watcher]. *)
Definition zeroTime : Time := mkTime 0 0 None.

Definition loc_eqb (a b : option nat) : bool :=
  match a, b with
  | None, None => true
  | Some x, Some y => Nat.eqb x y
  | _, _ => false
  end.

Definition Time_eqb (a b : Time) : bool :=
  Z.eqb (wall a) (wall b) && Z.eqb (ext a) (ext b) && loc_eqb (loc a) (loc b).

(** A started command: [exec.Cmd].  [cmdId] stands for the identity of
    the pointer that [exec.Command] returns, [Process] is non-nil once
    [Start] has succeeded. *)
Record Cmd : Type := mkCmd {
  cmdId   : nat;
  cmdArgs : list string;
  Process : option nat
}.

Record Watcher : Type := mkWatcher {
  dir          : string;
  interval     : Z;
  buildCmd     : string;
  runCmd       : string;
  includes     : list string;
  excludes     : list string;
  depFile      : string;
  depCmd       : string;
  prevHash     : Z;
  prevDepMTime : Time;
  process      : option Cmd
}.

Definition NewWatcher (dir : string) (interval : Z)
    (buildCmd runCmd depFile depCmd : string)
    (includes excludes : list string) : Watcher :=
  mkWatcher dir interval buildCmd runCmd includes excludes depFile depCmd
            0%Z zeroTime None.

Definition set_prevHash (h : Z) (w : Watcher) : Watcher :=
  mkWatcher (dir w) (interval w) (buildCmd w) (runCmd w) (includes w)
            (excludes w) (depFile w) (depCmd w) h (prevDepMTime w) (process w).

Definition set_prevDepMTime (t : Time) (w : Watcher) : Watcher :=
  mkWatcher (dir w) (interval w) (buildCmd w) (runCmd w) (includes w)
            (excludes w) (depFile w) (depCmd w) (prevHash w) t (process w).

Definition set_process (p : option Cmd) (w : Watcher) : Watcher :=
  mkWatcher (dir w) (interval w) (buildCmd w) (runCmd w) (includes w)
            (excludes w) (depFile w) (depCmd w) (prevHash w) (prevDepMTime w) p.

(* ================================================================= *)
(** ** [shouldProcess] *)

(** The body of both [for ... range] loops: does some rule of the list
    match [relPath] as a prefix or as a suffix?  The loop returns at the
    first rule that does. *)
Fixpoint anyRule (relPath : string) (rules : list string) : bool :=
  match rules with
  | [] => false
  | r :: rest =>
      if HasPrefix relPath r || HasSuffix relPath r then true
      else anyRule relPath rest
  end.

Definition shouldProcess (w : Watcher) (relPath : string) : bool :=
  if anyRule relPath (excludes w) then false
  else if (List.length (includes w) =? 0)%nat then true
  else if anyRule relPath (includes w) then true
  else false.

(* ================================================================= *)
(** ** [hash/fnv]: the 64-bit FNV-1a accumulator *)

Definition offset64 : Z := 14695981039346656037.
Definition prime64 : Z := 1099511628211.
Definition two64 : Z := 2 ^ 64.

(** One byte of [Write] on a 64-bit FNV-1a hash:
    [hash ^= byte; hash *= prime64], the product wrapping at 64 bits. *)
Definition fnvWriteByte (h : Z) (c : ascii) : Z :=
  ((Z.lxor h (Z.of_N (N_of_ascii c))) * prime64) mod two64.

Fixpoint fnvWrite (h : Z) (s : string) : Z :=
  match s with
  | EmptyString => h
  | String c rest => fnvWrite (fnvWriteByte h c) rest
  end.

(** [fmt.Sprintf("%d", n)] for an [int64]. *)
Definition Sprintf_d (n : Z) : string := NilZero.string_of_int (Z.to_int n).

(* ================================================================= *)
(** ** [path/filepath]: [Base], [Clean], [Join], relative paths *)

Definition isSlash (c : ascii) : bool := Ascii.eqb c "/".

(** The loop of [Base] that strips trailing separators. *)
Fixpoint stripTrailing (s : string) : string :=
  match s with
  | EmptyString => EmptyString
  | String c rest =>
      let rest' := stripTrailing rest in
      if isSlash c && (rest' =? "") then EmptyString else String c rest'
  end.

(** The loop of [Base] that finds the last element: [acc] is what was
    read since the last separator. *)
Fixpoint afterLastSlash (s acc : string) : string :=
  match s with
  | EmptyString => acc
  | String c rest =>
      if isSlash c then afterLastSlash rest ""
      else afterLastSlash rest (acc ++ String c "")
  end.

Definition Base (path : string) : string :=
  if path =? "" then "."
  else
    let p := afterLastSlash (stripTrailing path) "" in
    if p =? "" then "/" else p.

(** A path that [filepath.Walk] hands to its callback is the root
    joined with the names of the directory entries on the way down.  It
    is kept as the list of those names; a directory entry's name is
    never empty and holds no separator, so [filepath.Rel(w.dir, path)]
    is the names joined by the separator (["."] for the root) and
    [filepath.Base(path)] is the last name ([Base] of the root for the
    root itself). *)
Definition Path : Type := list string.

Fixpoint joinNames (first : string) (rest : list string) : string :=
  match rest with
  | [] => first
  | n :: rest' => joinNames (first ++ "/" ++ n) rest'
  end.

Definition Rel (path : Path) : string :=
  match path with
  | [] => "."
  | n :: rest => joinNames n rest
  end.

Definition pathBase (root : string) (path : Path) : string :=
  match path with
  | [] => Base root
  | _ => List.last path ""
  end.

(** [strings.Split(s, sep)] for a separator of one byte: the pieces of
    [s] between the separators, one more than there are separators;
    the empty string gives one empty piece. *)
Fixpoint splitOn (sep : ascii) (s : string) : list string :=
  match s with
  | EmptyString => [""]
  | String c rest =>
      if Ascii.eqb c sep then "" :: splitOn sep rest
      else
        match splitOn sep rest with
        | piece :: more => String c piece :: more
        | [] => [String c ""]
        end
  end.

(** The loop of [filepath.Clean] over the elements of a path; [out]
    holds the elements written so far, the last one first.  An empty
    element and ["."] are dropped.  [".."] takes back the element
    before it; where there is none to take back it is dropped in a
    rooted path and written in any other. *)
Fixpoint cleanElems (rooted : bool) (elems out : list string) : list string :=
  match elems with
  | [] => out
  | e :: rest =>
      if (e =? "") || (e =? ".") then cleanElems rooted rest out
      else if e =? ".." then
        match out with
        | top :: below =>
            if top =? ".." then cleanElems rooted rest (".." :: out)
            else cleanElems rooted rest below
        | [] =>
            if rooted then cleanElems rooted rest []
            else cleanElems rooted rest [".."]
        end
      else cleanElems rooted rest (e :: out)
  end.

Fixpoint joinSlash (names : list string) : string :=
  match names with
  | [] => ""
  | [n] => n
  | n :: rest => n ++ "/" ++ joinSlash rest
  end.

(** [filepath.Clean]: the empty path and a path that cleans to nothing
    give ["."]; a rooted path keeps its first separator. *)
Definition Clean (path : string) : string :=
  if path =? "" then "."
  else
    let rooted :=
      match path with String c _ => isSlash c | EmptyString => false end in
    let body := joinSlash (rev (cleanElems rooted (splitOn "/" path) [])) in
    if rooted then "/" ++ body
    else if body =? "" then "." else body.

(** [filepath.Join(dir, name)]: the elements that are not empty, put
    together with the separator and cleaned. *)
Definition Join (dir name : string) : string :=
  if dir =? "" then (if name =? "" then "" else Clean name)
  else if name =? "" then Clean dir
  else Clean (dir ++ "/" ++ name).

(** The text of the path that the callback receives and prints: [Walk]
    hands over the root as it was given, and [walk] makes the path of
    each entry with [filepath.Join(path, name)]. *)
Definition pathText (root : string) (path : Path) : string :=
  fold_left Join path root.

(* ================================================================= *)
(** ** The directory tree as [os.Lstat] and [ReadDir] show it *)

Set Warnings "-register-all".

Definition error : Type := string.

(** What [Lstat] answers for a name: a file that is not a directory, a
    directory with the outcome of reading its names and its entries, or
    an error. *)
Inductive entry : Type :=
| File (name : string) (size : Z) (mtime : Time)
| Dir (name : string) (size : Z) (mtime : Time)
      (readErr : option error) (children : list entry)
| Broken (name : string) (err : error).

Record FileInfo : Type := mkFileInfo {
  Name    : string;
  Size    : Z;
  ModTime : Time;
  IsDir   : bool
}.

Definition entryName (e : entry) : string :=
  match e with
  | File n _ _ => n
  | Dir n _ _ _ _ => n
  | Broken n _ => n
  end.

Definition entryInfo (e : entry) : option FileInfo :=
  match e with
  | File n sz mt => Some (mkFileInfo n sz mt false)
  | Dir n sz mt _ _ => Some (mkFileInfo n sz mt true)
  | Broken _ _ => None
  end.

Definition entryIsDir (e : entry) : bool :=
  match e with Dir _ _ _ _ _ => true | _ => false end.

(* ================================================================= *)
(** ** [filepath.Walk] *)

(** [Walk] and [walk] follow the functions of these names in Go's
    [path/filepath]: every error met on the way, the one of the root
    included, is handed to the callback, and [Walk] returns only what
    the callback returns. *)

(** The [error] a [WalkFunc] returns: [nil], [filepath.SkipDir] or any
    other error. *)
Inductive WalkErr : Type :=
| ErrNil
| ErrSkipDir
| ErrOther (e : error).

Section Walk.

Context {S : Type}.
Variable walkFn : Path -> option FileInfo -> option error -> S -> WalkErr * S.

(** The [for _, name := range names] loop of [walk]: a name whose
    [lstat] fails goes to the callback with the error, any other is
    walked; [SkipDir] from a directory, or from the callback on an
    error, only ends that entry. *)
Fixpoint walkNames (walk : Path -> entry -> S -> WalkErr * S)
    (path : Path) (names : list entry) (s : S) : WalkErr * S :=
  match names with
  | [] => (ErrNil, s)
  | c :: rest =>
      match c with
      | Broken n err =>
          let '(r, s') := walkFn (path ++ [n])%list None (Some err) s in
          match r with
          | ErrOther _ => (r, s')
          | _ => walkNames walk path rest s'
          end
      | _ =>
          let '(r, s') := walk (path ++ [entryName c])%list c s in
          match r with
          | ErrNil => walkNames walk path rest s'
          | ErrSkipDir =>
              if entryIsDir c then walkNames walk path rest s' else (r, s')
          | ErrOther _ => (r, s')
          end
      end
  end.

(** [walk]: a file goes to the callback; a directory goes to the
    callback with the outcome of reading its names, and is entered only
    when both that outcome and the callback's answer are [nil]. *)
Fixpoint walk (path : Path) (e : entry) (s : S) {struct e} : WalkErr * S :=
  match e with
  | File _ _ _ => walkFn path (entryInfo e) None s
  | Broken _ err => walkFn path None (Some err) s
  | Dir _ _ _ readErr children =>
      let '(err1, s1) := walkFn path (entryInfo e) readErr s in
      match readErr, err1 with
      | None, ErrNil => walkNames walk path children s1
      | _, _ => (err1, s1)
      end
  end.

(** [Walk]: [Lstat] of the root; on failure the callback gets the
    error, else the tree is walked; [SkipDir] at the root is no error. *)
Definition Walk (root : entry) (s : S) : option error * S :=
  let '(err, s') :=
    match root with
    | Broken _ e => walkFn [] None (Some e) s
    | _ => walk [] root s
    end in
  match err with
  | ErrNil | ErrSkipDir => (None, s')
  | ErrOther e => (Some e, s')
  end.

End Walk.

(* ================================================================= *)
(** ** What the program does to the outside *)

(** [EvRun args code]: a command started by [cmd.Run()] has run to
    its end, and [code] is what [ProcessState.ExitCode()] gives for
    it, the exit status or -1 for a process ended by a signal. *)
Inductive Event : Type :=
| EvLog (msg : string)
| EvRun (args : list string) (exitCode : Z)
| EvStart (id : nat) (args : list string) (ok : bool)
| EvKill (id : nat)
| EvSleep (d : Z).

(** Is the first byte of [s] a dot?  ([info.Name()[0] == '.']; the
    name that [Lstat] reports is never empty.) *)
Definition firstIsDot (s : string) : bool :=
  match String.get 0 s with
  | Some c => Ascii.eqb c "."
  | None => false
  end.

(** The variables that the callback of [hashDir] closes over: the hash
    [h], [depChanged], the watcher (for [prevDepMTime]), and the log. *)
Record Scan : Type := mkScan {
  scanHash : Z;
  scanDep  : bool;
  scanW    : Watcher;
  scanLog  : list Event
}.

Definition scanEmit (ev : Event) (st : Scan) : Scan :=
  mkScan (scanHash st) (scanDep st) (scanW st) (scanLog st ++ [ev])%list.

(* ================================================================= *)
(** ** The files that the traversal reaches *)

(** A directory that the callback of [hashDir] answers with
    [filepath.SkipDir]: its name is not ["."] and begins with a dot. *)
Definition hiddenDir (name : string) : bool :=
  negb (name =? ".") && firstIsDot name.

Fixpoint visitNames (visit : Path -> entry -> list (Path * FileInfo))
    (path : Path) (names : list entry) : list (Path * FileInfo) :=
  match names with
  | [] => []
  | c :: rest =>
      (visit (path ++ [entryName c]) c ++ visitNames visit path rest)%list
  end.

(** The files below [e], in the order of the walk, that are neither
    under a hidden directory nor under one that cannot be read, and
    whose [lstat] succeeds. *)
Fixpoint visit (path : Path) (e : entry) {struct e} : list (Path * FileInfo) :=
  match e with
  | File n sz mt => [(path, mkFileInfo n sz mt false)]
  | Broken _ _ => []
  | Dir n _ _ readErr children =>
      match readErr with
      | Some _ => []
      | None => if hiddenDir n then [] else visitNames visit path children
      end
  end.

(* ================================================================= *)
(** ** The running program: state, oracle and trace *)

(** How a [cmd.Run()] ends: [/bin/sh] could not be started, so that no
    process ran and there is no exit status; or the shell ran and
    exited with a status; or the shell ran and was ended by a signal,
    [sig] being the text of the signal as [ProcessState.String]
    prints it. *)
Inductive RunOutcome : Type :=
| StartError (e : error)
| Exited (code : Z)
| Signaled (sig : string).

(** The watcher together with what surrounds it.  [exits k] is how the
    [k]-th [cmd.Run()] ends, [starts k] tells whether [cmd.Start()] of
    the [k]-th command of [startApp] succeeds.
    [live] holds the started processes that have not exited, [pending]
    the exit-watcher goroutines that have not yet run, [killed] the
    processes that [startApp] has killed. *)
Record Sys : Type := mkSys {
  watcher : Watcher;
  exits   : nat -> RunOutcome;
  nRuns   : nat;
  starts  : nat -> bool;
  nCmds   : nat;
  live    : list nat;
  pending : list nat;
  killed  : list nat;
  trace   : list Event
}.

Definition M (A : Type) : Type := Sys -> A * Sys.

Definition ret {A : Type} (a : A) : M A := fun s => (a, s).

Definition bind {A B : Type} (m : M A) (k : A -> M B) : M B :=
  fun s => let '(a, s') := m s in k a s'.

Notation "x <- m ;; k" := (bind m (fun x => k))
  (at level 61, m at next level, right associativity).
Notation "m ;; k" := (bind m (fun _ => k))
  (at level 61, right associativity).

Definition getW : M Watcher := fun s => (watcher s, s).

Definition modifyW (f : Watcher -> Watcher) : M unit :=
  fun s => (tt, mkSys (f (watcher s)) (exits s) (nRuns s) (starts s) (nCmds s)
                      (live s) (pending s) (killed s) (trace s)).

Definition emit (ev : Event) : M unit :=
  fun s => (tt, mkSys (watcher s) (exits s) (nRuns s) (starts s) (nCmds s)
                      (live s) (pending s) (killed s) (trace s ++ [ev])%list).

Definition emits (evs : list Event) : M unit :=
  fun s => (tt, mkSys (watcher s) (exits s) (nRuns s) (starts s) (nCmds s)
                      (live s) (pending s) (killed s) (trace s ++ evs)%list).

Definition without (id : nat) (l : list nat) : list nat :=
  filter (fun x => negb (Nat.eqb x id)) l.

(** The command line of [exec.Command("/bin/sh", "-c", command)]. *)
Definition shArgs (command : string) : list string :=
  ["/bin/sh"; "-c"; command].

(** [cmd.Run()] is [Start] followed by [Wait].  When the shell cannot
    be started, the error of [Start] is returned and nothing has run.
    Else the caller waits for the shell, and [Wait] returns [nil] when
    the shell exited with status 0 and an [*exec.ExitError], whose text
    is the one of the process state, in any other case.  ([Stdout] and
    [Stderr] are files, so [Wait] has nothing to copy and no other
    error to return.) *)
Definition cmdRun (args : list string) : M (option error) :=
  fun s =>
    match exits s (nRuns s) with
    | StartError e =>
        (Some e,
         mkSys (watcher s) (exits s) (Datatypes.S (nRuns s)) (starts s)
               (nCmds s) (live s) (pending s) (killed s) (trace s))
    | Exited code =>
        ((if (code =? 0)%Z then None
          else Some ("exit status " ++ Sprintf_d code)),
         mkSys (watcher s) (exits s) (Datatypes.S (nRuns s)) (starts s)
               (nCmds s) (live s) (pending s) (killed s)
               (trace s ++ [EvRun args code])%list)
    | Signaled sig =>
        (Some ("signal: " ++ sig),
         mkSys (watcher s) (exits s) (Datatypes.S (nRuns s)) (starts s)
               (nCmds s) (live s) (pending s) (killed s)
               (trace s ++ [EvRun args (-1)])%list)
    end.

(** [cmd.Start()] for a fresh [exec.Cmd]: on success the process lives
    and the command carries its handle. *)
Definition cmdStart (args : list string) : M (option Cmd) :=
  fun s =>
    let id := nCmds s in
    let ok := starts s id in
    ((if ok then Some (mkCmd id args (Some id)) else None),
     mkSys (watcher s) (exits s) (nRuns s) (starts s) (Datatypes.S id)
           (if ok then id :: live s else live s) (pending s) (killed s)
           (trace s ++ [EvStart id args ok])%list).

(** [Process.Kill()], its error dropped. *)
Definition kill (id : nat) : M unit :=
  fun s =>
    (tt, mkSys (watcher s) (exits s) (nRuns s) (starts s) (nCmds s)
               (without id (live s)) (pending s) (id :: killed s)
               (trace s ++ [EvKill id])%list).

(** The [go func() { ... }()] statement: one more exit-watcher. *)
Definition goExitWatcher (id : nat) : M unit :=
  fun s =>
    (tt, mkSys (watcher s) (exits s) (nRuns s) (starts s) (nCmds s)
               (live s) (id :: pending s) (killed s) (trace s)).

(* ================================================================= *)
(** ** [runShell], [runBuild], [startApp] *)

Definition runShell (command : string) : M (option error) :=
  if command =? "" then ret None
  else cmdRun (shArgs command).

Definition runBuild (depChanged : bool) : M (option error) :=
  w <- getW ;;
  r <- (if depChanged && negb (depCmd w =? "") then
          emit (EvLog (depFile w ++ " changed: running " ++ depCmd w ++ "...")) ;;
          runShell (depCmd w)
        else ret None) ;;
  match r with
  | Some e => ret (Some e)
  | None =>
      emit (EvLog "Running build command...") ;;
      runShell (buildCmd w)
  end.

(** [startApp], from [Lock] to the deferred [Unlock]: one step. *)
Definition startApp : M (option error) :=
  w <- getW ;;
  (match process w with
   | Some c =>
       match Process c with
       | Some pid =>
           emit (EvLog "Stopping previous app process...") ;;
           kill pid ;;
           modifyW (set_process None)
       | None => ret tt
       end
   | None => ret tt
   end) ;;
  emit (EvLog "Starting app...") ;;
  started <- cmdStart (shArgs (runCmd w)) ;;
  match started with
  | None => ret (Some "start failed")
  | Some cmd =>
      modifyW (set_process (Some cmd)) ;;
      goExitWatcher (cmdId cmd) ;;
      ret None
  end.

(** The body of the goroutine after [cmd.Wait()] has returned, from
    [Lock] to [Unlock]: one step. *)
Definition exitWatcher (id : nat) : M unit :=
  emit (EvLog "App exited") ;;
  modifyW (set_process None) ;;
  (fun s => (tt, mkSys (watcher s) (exits s) (nRuns s) (starts s) (nCmds s)
                       (live s) (without id (pending s)) (killed s) (trace s))).

(** A process ends by itself. *)
Definition procExit (id : nat) : M unit :=
  fun s => (tt, mkSys (watcher s) (exits s) (nRuns s) (starts s) (nCmds s)
                      (without id (live s)) (pending s) (killed s) (trace s)).

(** What can happen to the supervisor, one step at a time: the loop
    calls [startApp]; a live process exits; the exit-watcher of a
    process that is no longer alive gets the lock. *)
Inductive Action : Type :=
| ActRestart
| ActProcExit (id : nat)
| ActWatcher (id : nat).

Definition memb (id : nat) (l : list nat) : bool := existsb (Nat.eqb id) l.

Definition act (a : Action) : M unit :=
  match a with
  | ActRestart => startApp ;; ret tt
  | ActProcExit id => procExit id
  | ActWatcher id =>
      fun s =>
        if memb id (pending s) && negb (memb id (live s))
        then exitWatcher id s
        else (tt, s)
  end.

Fixpoint acts (l : list Action) : M unit :=
  match l with
  | [] => ret tt
  | a :: rest => act a ;; acts rest
  end.

(** The handles that the supervisor tracks. *)
Definition tracked (s : Sys) : list Cmd :=
  match process (watcher s) with
  | Some c => [c]
  | None => []
  end.

Definition initSys (w : Watcher) (exits : nat -> RunOutcome)
    (starts : nat -> bool) : Sys :=
  mkSys w exits 0 starts 0 [] [] [] [].

(* ================================================================= *)
(** ** The loop of [Run] *)

Definition sleep : M unit :=
  w <- getW ;; emit (EvSleep (interval w)).

(** The body of the [for] loop once [runBuild] has returned [r]. *)
Definition afterBuild (r : option error) : M unit :=
  match r with
  | Some e =>
      emit (EvLog ("Build failed: " ++ e)) ;;
      sleep
  | None =>
      r' <- startApp ;;
      (match r' with
       | Some e => emit (EvLog ("App start failed: " ++ e))
       | None => ret tt
       end) ;;
      sleep
  end.

(** The body of the [for] loop of [Run] after the call of [hashDir]. *)
Definition afterScan (res : Z * bool * option error) : M unit :=
  let '(hash, depChanged, err) := res in
  match err with
  | Some e =>
      emit (EvLog ("Error hashing dir: " ++ e)) ;;
      sleep
  | None =>
      w <- getW ;;
      if negb (hash =? prevHash w)%Z then
        emit (EvLog "Change detected, rebuilding...") ;;
        modifyW (set_prevHash hash) ;;
        r <- runBuild depChanged ;;
        afterBuild r
      else sleep
  end.

(** The invariant of the supervisor: the current handle is a started
    command that [startApp] created and has not killed. *)
Definition supInv (s : Sys) : Prop :=
  (forall c, process (watcher s) = Some c ->
     Process c = Some (cmdId c) /\ (cmdId c < nCmds s)%nat
     /\ ~ In (cmdId c) (killed s))
  /\ (forall k, In k (killed s) -> (k < nCmds s)%nat).

(** The events of [runBuild]: log lines and runs. *)
Definition isLogOrRun (ev : Event) : Prop :=
  match ev with
  | EvLog _ | EvRun _ _ => True
  | _ => False
  end.

Definition isLog (ev : Event) : Prop :=
  match ev with
  | EvLog _ => True
  | _ => False
  end.

(** Two watchers with the same configuration. *)
Definition sameConfig (a b : Watcher) : Prop :=
  dir a = dir b /\ interval a = interval b /\ buildCmd a = buildCmd b
  /\ runCmd a = runCmd b /\ includes a = includes b
  /\ excludes a = excludes b /\ depFile a = depFile b /\ depCmd a = depCmd b.

(** Two watchers that differ at most in the process handle. *)
Definition sameButProcess (a b : Watcher) : Prop :=
  sameConfig a b /\ prevHash a = prevHash b
  /\ prevDepMTime a = prevDepMTime b.

(** The parts of the result of [hashDir]. *)
Definition resHash (r : (Z * bool * option error) * Watcher * list Event) : Z :=
  fst (fst (fst (fst r))).

Definition resDep (r : (Z * bool * option error) * Watcher * list Event) : bool :=
  snd (fst (fst (fst r))).

Definition resErr (r : (Z * bool * option error) * Watcher * list Event)
  : option error :=
  snd (fst (fst r)).

Definition resWatcher (r : (Z * bool * option error) * Watcher * list Event)
  : Watcher :=
  snd (fst r).

Definition resLogs (r : (Z * bool * option error) * Watcher * list Event)
  : list Event :=
  snd r.

(* ================================================================= *)
(** ** [main]: from the flag values to the watcher *)

(** [strings.Split(s, ",")]. *)
Definition SplitComma (s : string) : list string := splitOn "," s.

(** The values of the flags after [flag.Parse()]. *)
Record Flags : Type := mkFlags {
  flagBuild      : string;
  flagRun        : string;
  flagDepFile    : string;
  flagDepCommand : string;
  flagInterval   : Z;
  flagInclude    : string;
  flagExclude    : string
}.

(** The flags when the command line gives none ([interval] in
    nanoseconds). *)
Definition defaultFlags : Flags :=
  mkFlags "echo 'No build command specified'"
          "echo 'No run command specified'" "" "" 1000000000 "" "".

(** The watcher that [main] builds: the root is ["."], and a rule flag
    that is not empty is split at its commas. *)
Definition mainWatcher (f : Flags) : Watcher :=
  let includes :=
    if flagInclude f =? "" then [] else SplitComma (flagInclude f) in
  let excludes :=
    if flagExclude f =? "" then [] else SplitComma (flagExclude f) in
  NewWatcher "." (flagInterval f) (flagBuild f) (flagRun f)
             (flagDepFile f) (flagDepCommand f) includes excludes.

(** [strings.Join(pieces, ",")], the inverse that [SplitComma] is
    compared with. *)
Fixpoint JoinComma (pieces : list string) : string :=
  match pieces with
  | [] => ""
  | [p] => p
  | p :: rest => p ++ "," ++ JoinComma rest
  end.

Fixpoint hasComma (s : string) : bool :=
  match s with
  | EmptyString => false
  | String c rest => Ascii.eqb c "," || hasComma rest
  end.

Fixpoint countCommas (s : string) : nat :=
  match s with
  | EmptyString => 0
  | String c rest =>
      if Ascii.eqb c "," then Datatypes.S (countCommas rest)
      else countCommas rest
  end.

(** Does [s] hold a separator? *)
Fixpoint hasSlash (s : string) : bool :=
  match s with
  | EmptyString => false
  | String c rest => isSlash c || hasSlash rest
  end.

(* ================================================================= *)
(** ** Views of the state and of the trace *)

(** Every live process has its exit-watcher waiting, and so has the
    process of the current handle; the watchers belong to commands
    that were created. *)
Definition watchInv (s : Sys) : Prop :=
  (forall id, In id (live s) -> In id (pending s))
  /\ (forall c, process (watcher s) = Some c -> In (cmdId c) (pending s))
  /\ (forall id, In id (pending s) -> (id < nCmds s)%nat).

(** The part of the state that the supervisor reads and writes. *)
Definition supView (s : Sys)
  : option Cmd * nat * list nat * list nat * list nat :=
  (process (watcher s), nCmds s, live s, pending s, killed s).


(* ================================================================= *)
(** ** Sample inputs *)

(** A stand-in for [time.Time.String] in the examples: the extension
    word in decimal. *)
Definition sampleTimeString (t : Time) : string := Sprintf_d (ext t).

Definition sampleTime (n : Z) : Time := mkTime 0 n (Some 0%nat).

Definition sampleWatcher : Watcher :=
  NewWatcher "." 1000 "go build -o app ." "./app" "go.mod" "go mod tidy"
             [".go"; ".mod"] [".log"].

Definition sampleTree : entry :=
  Dir "." 4096 (sampleTime 1) None
    [File "main.go" 10 (sampleTime 5);
     Dir ".git" 4096 (sampleTime 1) None [File "hook.go" 1 (sampleTime 1)];
     Dir "sub" 4096 (sampleTime 2) None
       [File "util.go" 3 (sampleTime 7); File "run.log" 1 (sampleTime 1);
        Broken "gone" "no such file or directory"];
     Dir "locked" 4096 (sampleTime 2) (Some "permission denied")
       [File "secret.go" 3 (sampleTime 7)];
     File "go.mod" 4 (sampleTime 9)].

(** Every command succeeds. *)
Definition sampleSys : Sys :=
  initSys sampleWatcher (fun _ => Exited 0) (fun _ => true).

(** The first command run exits with status 2. *)
Definition failingSys : Sys :=
  initSys sampleWatcher (fun k => if Nat.eqb k 0 then Exited 2 else Exited 0)
          (fun _ => true).

(** The first command run is ended by a signal. *)
Definition killedSys : Sys :=
  initSys sampleWatcher
          (fun k => if Nat.eqb k 0 then Signaled "killed" else Exited 0)
          (fun _ => true).

(** No shell can be started. *)
Definition noShellSys : Sys :=
  initSys sampleWatcher
          (fun _ => StartError "fork/exec /bin/sh: resource temporarily unavailable")
          (fun _ => true).

(** Two files named [go.mod] with different times, in the order of
    the walk. *)
Definition twoModulesTree : entry :=
  Dir "." 4096 (sampleTime 1) None
    [File "go.mod" 4 (sampleTime 9);
     Dir "sub" 4096 (sampleTime 2) None [File "go.mod" 3 (sampleTime 7)]].

(** A hidden directory as [ReadDir] of the root lists it. *)
Definition gitDir : entry :=
  Dir ".git" 4096 (sampleTime 1) None [File "hook.go" 1 (sampleTime 1)].

(** A root that [Lstat] cannot reach. *)
Definition missingRoot : entry :=
  Broken "." "lstat .: no such file or directory".

(** Flags as [--exclude=.git,] and [--include=.go,] leave them. *)
Definition trailingCommaFlags : Flags :=
  mkFlags "make" "./app" "" "" 1000000000 ".go," ".git,".

(** Two trees that differ in a log file, which [sampleWatcher]
    excludes. *)
Definition treeWithLog : entry :=
  Dir "." 4096 (sampleTime 1) None
    [File "main.go" 10 (sampleTime 5); File "build.log" 7 (sampleTime 6)].

Definition treeWithoutLog : entry :=
  Dir "." 4096 (sampleTime 1) None [File "main.go" 10 (sampleTime 5)].

(** [sampleTree] after [main.go] was edited. *)
Definition editedTree : entry :=
  Dir "." 4096 (sampleTime 1) None
    [File "main.go" 12 (sampleTime 20);
     Dir ".git" 4096 (sampleTime 1) None [File "hook.go" 1 (sampleTime 1)];
     Dir "sub" 4096 (sampleTime 2) None
       [File "util.go" 3 (sampleTime 7); File "run.log" 1 (sampleTime 1);
        Broken "gone" "no such file or directory"];
     Dir "locked" 4096 (sampleTime 2) (Some "permission denied")
       [File "secret.go" 3 (sampleTime 7)];
     File "go.mod" 4 (sampleTime 9)].

Definition emptyTree : entry := Dir "." 4096 (sampleTime 1) None [].


Section Fingerprint.

(** [time.Time.String]: the text of a time stamp. *)
Variable timeString : Time -> string.

(** The three [h.Write] calls for an accepted file. *)
Definition hashFile (h : Z) (relPath : string) (info : FileInfo) : Z :=
  fnvWrite (fnvWrite (fnvWrite h relPath) (Sprintf_d (Size info)))
           (timeString (ModTime info)).

(** The dependency-file check at the end of the callback. *)
Definition depCheck (base : string) (info : FileInfo) (st : Scan) : Scan :=
  let w := scanW st in
  if negb (depFile w =? "") && (base =? Base (depFile w)) then
    if negb (Time_eqb (ModTime info) (prevDepMTime w)) then
      mkScan (scanHash st) true (set_prevDepMTime (ModTime info) w)
             (scanLog st)
    else st
  else st.

(** What the callback does with a file that is not a directory. *)
Definition scanFile (f : Path * FileInfo) (st : Scan) : Scan :=
  let '(path, info) := f in
  if shouldProcess (scanW st) (Rel path) then
    depCheck (pathBase (dir (scanW st)) path) info
             (mkScan (hashFile (scanHash st) (Rel path) info)
                     (scanDep st) (scanW st) (scanLog st))
  else st.

(** The function literal passed to [filepath.Walk]. *)
Definition hashDirFn (path : Path) (info : option FileInfo)
    (err : option error) (st : Scan) : WalkErr * Scan :=
  match err with
  | Some e =>
      (ErrNil,
       scanEmit (EvLog ("Error accessing " ++ pathText (dir (scanW st)) path
                        ++ ": " ++ e)) st)
  | None =>
      match info with
      | None =>
          (ErrNil,
           scanEmit (EvLog ("No info for " ++ pathText (dir (scanW st)) path))
                    st)
      | Some info =>
          let relPath := Rel path in
          if IsDir info then
            if negb (Name info =? ".") && firstIsDot (Name info)
            then (ErrSkipDir, st)
            else (ErrNil, st)
          else if negb (shouldProcess (scanW st) relPath) then (ErrNil, st)
          else
            let st1 := mkScan (hashFile (scanHash st) relPath info)
                              (scanDep st) (scanW st) (scanLog st) in
            (ErrNil, depCheck (pathBase (dir (scanW st)) path) info st1)
      end
  end.

(** [hashDir]: the result triple, the watcher as the walk left it
    ([prevDepMTime] is written through the receiver), and the log. *)
Definition hashDir (w : Watcher) (root : entry)
  : (Z * bool * option error) * Watcher * list Event :=
  let '(err, st) := Walk hashDirFn root (mkScan offset64 false w []) in
  match err with
  | Some e => ((0%Z, false, Some e), scanW st, scanLog st)
  | None => ((scanHash st, scanDep st, None), scanW st, scanLog st)
  end.

(** [hashDir] as a step of the program. *)
Definition hashDirM (root : entry) : M (Z * bool * option error) :=
  fun s =>
    let '(res, w', logs) := hashDir (watcher s) root in
    (res, mkSys w' (exits s) (nRuns s) (starts s) (nCmds s)
                (live s) (pending s) (killed s) (trace s ++ logs)%list).

(** One iteration of the loop of [Run], on the tree as it is then. *)
Definition iteration (root : entry) : M unit :=
  res <- hashDirM root ;;
  afterScan res.


(** The visited files that [shouldProcess] accepts, and those among
    them that the dependency check looks at: a dependency file is
    configured and the file carries its base name. *)
Definition acceptsFile (w : Watcher) (f : Path * FileInfo) : bool :=
  shouldProcess w (Rel (fst f)).

Definition isDepFile (w : Watcher) (f : Path * FileInfo) : bool :=
  negb (depFile w =? "") && (pathBase (dir w) (fst f) =? Base (depFile w)).

Definition accepted (w : Watcher) (root : entry) : list (Path * FileInfo) :=
  filter (acceptsFile w) (visit [] root).

Definition depFiles (w : Watcher) (root : entry) : list (Path * FileInfo) :=
  filter (isDepFile w) (accepted w root).

Definition modTimes (fs : list (Path * FileInfo)) : list Time :=
  map (fun f => ModTime (snd f)) fs.

(** The times that one file adds to the dependency check. *)
Definition fileTimes (w : Watcher) (f : Path * FileInfo) : list Time :=
  if acceptsFile w f && isDepFile w f then [ModTime (snd f)] else [].

(** Does some time of the list differ from [t]? *)
Definition changedFrom (t : Time) (ts : list Time) : bool :=
  existsb (fun x => negb (Time_eqb x t)) ts.

(** The digest of the accepted files. *)
Definition digest (fs : list (Path * FileInfo)) (h : Z) : Z :=
  fold_left (fun h f => hashFile h (Rel (fst f)) (snd f)) fs h.

(** The watcher as the scan of [root] leaves it. *)
Definition scanned (w : Watcher) (root : entry) : Watcher :=
  set_prevDepMTime
    (List.last (modTimes (depFiles w root)) (prevDepMTime w)) w.

Definition addLogs (logs : list Event) (st : Scan) : Scan :=
  mkScan (scanHash st) (scanDep st) (scanW st) (scanLog st ++ logs)%list.

(** The outcome of walking an entry: never an error of its own,
    [SkipDir] only from a directory, and the state is the one that
    [scanFile] builds over the visited files, with some log lines. *)
Definition walkOutcome (path : Path) (e : entry) : Prop :=
  forall st, exists r logs,
    walk hashDirFn path e st
    = (r, addLogs logs (fold_left (fun s f => scanFile f s) (visit path e) st))
    /\ Forall isLog logs
    /\ (r = ErrNil \/ (r = ErrSkipDir /\ entryIsDir e = true)).

(** What the whole program does, one step at a time: the loop makes
    one more iteration on the tree as it is then, or something happens
    to the supervisor in between. *)
Inductive Step : Type :=
| StepCycle (root : entry)
| StepAct (a : Action).

Definition step (t : Step) : M unit :=
  match t with
  | StepCycle root => iteration root
  | StepAct a => act a
  end.

Fixpoint program (ts : list Step) : M unit :=
  match ts with
  | [] => ret tt
  | t :: rest => step t ;; program rest
  end.

(* ================================================================= *)
(** ** Facts about the string tests *)

Lemma substring_0_all (s : string) : substring 0 (String.length s) s = s.
Proof. induction s as [|c s IH]; simpl; [reflexivity | now rewrite IH]. Qed.

Lemma substring_0_app (p r : string) :
  substring 0 (String.length p) (p ++ r) = p.
Proof.
  induction p as [|c p IH]; simpl.
  - destruct r; reflexivity.
  - now rewrite IH.
Qed.

Lemma substring_skip_app (front s : string) (n : nat) :
  substring (String.length front) n (front ++ s) = substring 0 n s.
Proof. induction front as [|c f IH]; simpl; [reflexivity | exact IH]. Qed.

Lemma substring_split (s : string) (k : nat) :
  (k <= String.length s)%nat ->
  s = substring 0 k s ++ substring k (String.length s - k) s.
Proof.
  revert k; induction s as [|c s IH]; intros k Hk; simpl in *.
  - destruct k; reflexivity.
  - destruct k as [|k]; simpl.
    + now rewrite substring_0_all.
    + f_equal. apply IH. lia.
Qed.

Lemma append_length (a b : string) :
  String.length (a ++ b) = (String.length a + String.length b)%nat.
Proof. induction a as [|c a IH]; simpl; [reflexivity | now rewrite IH]. Qed.

Lemma HasPrefix_iff (s p : string) : HasPrefix s p = true <-> isPrefixOf p s.
Proof.
  unfold HasPrefix, isPrefixOf; split.
  - intros H. apply andb_true_iff in H as [Hlen Heq].
    apply Nat.leb_le in Hlen. apply String.eqb_eq in Heq.
    exists (substring (String.length p) (String.length s - String.length p) s).
    rewrite <- Heq at 1. now apply substring_split.
  - intros [r ->]. apply andb_true_iff; split.
    + apply Nat.leb_le. rewrite append_length. lia.
    + apply String.eqb_eq. apply substring_0_app.
Qed.

Lemma HasSuffix_iff (s p : string) : HasSuffix s p = true <-> isSuffixOf p s.
Proof.
  unfold HasSuffix, isSuffixOf; split.
  - intros H. apply andb_true_iff in H as [Hlen Heq].
    apply Nat.leb_le in Hlen. apply String.eqb_eq in Heq.
    exists (substring 0 (String.length s - String.length p) s).
    pose proof (substring_split s (String.length s - String.length p)) as Hs.
    replace (String.length s - (String.length s - String.length p))%nat
      with (String.length p) in Hs by lia.
    rewrite Heq in Hs. apply Hs. lia.
  - intros [f ->]. apply andb_true_iff; split.
    + apply Nat.leb_le. rewrite append_length. lia.
    + apply String.eqb_eq. rewrite append_length.
      replace (String.length f + String.length p - String.length p)%nat
        with (String.length f) by lia.
      rewrite substring_skip_app. apply substring_0_all.
Qed.

Lemma anyRule_true_iff (relPath : string) (rules : list string) :
  anyRule relPath rules = true <->
  exists r, In r rules /\ ruleMatches relPath r.
Proof.
  induction rules as [|r rest IH]; simpl.
  - split; [discriminate | intros (r & [] & _)].
  - destruct (HasPrefix relPath r || HasSuffix relPath r) eqn:E.
    + split; [intros _ | reflexivity].
      exists r; split; [now left|].
      apply orb_true_iff in E as [E|E].
      * left; now apply HasPrefix_iff.
      * right; now apply HasSuffix_iff.
    + rewrite IH. apply orb_false_iff in E as [E1 E2].
      split.
      * intros (r' & Hin & Hm). exists r'; split; [now right | exact Hm].
      * intros (r' & [<- | Hin] & Hm).
        -- destruct Hm as [Hm|Hm].
           ++ apply HasPrefix_iff in Hm. congruence.
           ++ apply HasSuffix_iff in Hm. congruence.
        -- exists r'; split; assumption.
Qed.

Lemma anyRule_false_iff (relPath : string) (rules : list string) :
  anyRule relPath rules = false <->
  ~ exists r, In r rules /\ ruleMatches relPath r.
Proof.
  rewrite <- anyRule_true_iff.
  destruct (anyRule relPath rules); split; intros H; congruence.
Qed.

(* ================================================================= *)
(** ** PathRuleMatcher *)

(** C4. For every relative path and every pair of rule lists: a path
    that some exclude rule matches as a prefix or as a suffix is
    rejected whatever the include rules are; a path that no exclude
    rule matches is accepted when the include list is empty, and
    otherwise it is accepted exactly when some include rule matches it
    as a prefix or as a suffix. *)
Theorem shouldProcess_rules (w : Watcher) (relPath : string) :
  ((exists ex, In ex (excludes w) /\ ruleMatches relPath ex) ->
     shouldProcess w relPath = false)
  /\ ((~ exists ex, In ex (excludes w) /\ ruleMatches relPath ex) ->
      includes w = [] -> shouldProcess w relPath = true)
  /\ ((~ exists ex, In ex (excludes w) /\ ruleMatches relPath ex) ->
      includes w <> [] ->
      (shouldProcess w relPath = true <->
       exists inc, In inc (includes w) /\ ruleMatches relPath inc)).
Proof.
  unfold shouldProcess. split; [|split].
  - intros Hex. apply anyRule_true_iff in Hex. now rewrite Hex.
  - intros Hno Hinc. apply anyRule_false_iff in Hno. now rewrite Hno, Hinc.
  - intros Hno Hinc. apply anyRule_false_iff in Hno. rewrite Hno.
    destruct (includes w) as [|i rest] eqn:Ei; [congruence|].
    simpl Nat.eqb. cbv iota. rewrite <- anyRule_true_iff.
    destruct (anyRule relPath (i :: rest)); split; congruence.
Qed.
(* ================================================================= *)
(** ** The walk of [hashDir] and the files it reaches *)

Lemma entry_ind' (P : entry -> Prop)
    (HFile : forall n sz mt, P (File n sz mt))
    (HDir : forall n sz mt rd cs, Forall P cs -> P (Dir n sz mt rd cs))
    (HBroken : forall n err, P (Broken n err)) :
  forall e, P e.
Proof.
  fix IH 1. intros [n sz mt | n sz mt rd cs | n err].
  - apply HFile.
  - apply HDir. induction cs as [|c cs IHcs]; constructor.
    + apply IH.
    + exact IHcs.
  - apply HBroken.
Qed.

Lemma Time_eqb_eq (a b : Time) : Time_eqb a b = true <-> a = b.
Proof.
  destruct a as [w1 e1 l1], b as [w2 e2 l2]; unfold Time_eqb; simpl.
  rewrite !andb_true_iff, !Z.eqb_eq. split.
  - intros [[-> ->] Hl]. f_equal.
    destruct l1, l2; simpl in Hl; try discriminate; [|reflexivity].
    apply Nat.eqb_eq in Hl. now subst.
  - intros H; injection H as -> -> ->. repeat split.
    destruct l2; simpl; [apply Nat.eqb_refl | reflexivity].
Qed.

Lemma Time_eqb_neq (a b : Time) : Time_eqb a b = false <-> a <> b.
Proof.
  rewrite <- Time_eqb_eq. destruct (Time_eqb a b); split; congruence.
Qed.

Lemma addLogs_nil (st : Scan) : addLogs [] st = st.
Proof. destruct st; unfold addLogs; simpl. now rewrite app_nil_r. Qed.

Lemma addLogs_addLogs (l1 l2 : list Event) (st : Scan) :
  addLogs l2 (addLogs l1 st) = addLogs (l1 ++ l2) st.
Proof. unfold addLogs; simpl. now rewrite app_assoc. Qed.

Lemma scanEmit_addLogs (ev : Event) (st : Scan) :
  scanEmit ev st = addLogs [ev] st.
Proof. reflexivity. Qed.

Lemma depCheck_addLogs base info logs st :
  depCheck base info (addLogs logs st) = addLogs logs (depCheck base info st).
Proof.
  unfold depCheck; simpl.
  destruct (negb (depFile (scanW st) =? "") && (base =? Base (depFile (scanW st))));
    [|reflexivity].
  destruct (negb (Time_eqb (ModTime info) (prevDepMTime (scanW st))));
    reflexivity.
Qed.

Lemma scanFile_addLogs f logs st :
  scanFile f (addLogs logs st) = addLogs logs (scanFile f st).
Proof.
  destruct f as [path info]; unfold scanFile; simpl.
  destruct (shouldProcess (scanW st) (Rel path)); [|reflexivity].
  now rewrite <- depCheck_addLogs.
Qed.

Lemma fold_scanFile_addLogs fs logs st :
  fold_left (fun s f => scanFile f s) fs (addLogs logs st)
  = addLogs logs (fold_left (fun s f => scanFile f s) fs st).
Proof.
  revert st; induction fs as [|f fs IH]; intros st; simpl; [reflexivity|].
  now rewrite scanFile_addLogs, IH.
Qed.

(** What the callback answers and does, by the kind of entry. *)
Lemma hashDirFn_error path info e st :
  hashDirFn path info (Some e) st
  = (ErrNil,
     scanEmit (EvLog ("Error accessing " ++ pathText (dir (scanW st)) path
                      ++ ": " ++ e)) st).
Proof. reflexivity. Qed.

Lemma hashDirFn_file path n sz mt st :
  hashDirFn path (Some (mkFileInfo n sz mt false)) None st
  = (ErrNil, scanFile (path, mkFileInfo n sz mt false) st).
Proof.
  unfold hashDirFn, scanFile; simpl.
  destruct (shouldProcess (scanW st) (Rel path)); reflexivity.
Qed.

Lemma hashDirFn_dir path n sz mt st :
  hashDirFn path (Some (mkFileInfo n sz mt true)) None st
  = (if hiddenDir n then ErrSkipDir else ErrNil, st).
Proof.
  unfold hashDirFn, hiddenDir; simpl.
  destruct (negb (n =? ".") && firstIsDot n); reflexivity.
Qed.

Lemma walkNames_walked path c rest st :
  entryInfo c <> None ->
  walkNames hashDirFn (walk hashDirFn) path (c :: rest) st
  = (let '(r, s') := walk hashDirFn (path ++ [entryName c])%list c st in
     match r with
     | ErrNil => walkNames hashDirFn (walk hashDirFn) path rest s'
     | ErrSkipDir =>
         if entryIsDir c
         then walkNames hashDirFn (walk hashDirFn) path rest s'
         else (r, s')
     | ErrOther _ => (r, s')
     end).
Proof. destruct c; [reflexivity | reflexivity | intros H; now elim H]. Qed.

Lemma walkNames_broken path n err rest st :
  walkNames hashDirFn (walk hashDirFn) path (Broken n err :: rest) st
  = walkNames hashDirFn (walk hashDirFn) path rest
      (addLogs [EvLog ("Error accessing "
                       ++ pathText (dir (scanW st)) (path ++ [n])%list
                       ++ ": " ++ err)] st).
Proof. reflexivity. Qed.

Lemma walkNames_outcome path cs :
  Forall (fun c => forall p, walkOutcome p c) cs ->
  forall st, exists logs,
    walkNames hashDirFn (walk hashDirFn) path cs st
    = (ErrNil,
       addLogs logs
         (fold_left (fun s f => scanFile f s) (visitNames visit path cs) st))
    /\ Forall isLog logs.
Proof.
  induction 1 as [|c cs Hc _ IH]; intros st.
  - exists []. simpl. rewrite addLogs_nil. auto.
  - destruct (entryInfo c) eqn:Ei.
    + rewrite walkNames_walked by congruence.
      destruct (Hc (path ++ [entryName c])%list st)
        as (r & l1 & Hw & Hl1 & Hr).
      rewrite Hw. cbn [visitNames]. rewrite fold_left_app.
      set (st1 := fold_left (fun s f => scanFile f s)
                            (visit (path ++ [entryName c])%list c) st).
      destruct (IH (addLogs l1 st1)) as (l2 & Hrest & Hl2).
      rewrite fold_scanFile_addLogs, addLogs_addLogs in Hrest.
      exists (l1 ++ l2)%list. split; [|now apply Forall_app].
      destruct Hr as [-> | [-> ->]]; exact Hrest.
    + destruct c as [n sz mt | n sz mt rd cs' | n err]; try discriminate Ei.
      rewrite walkNames_broken. cbn [visitNames visit app].
      set (ev := EvLog _).
      destruct (IH (addLogs [ev] st)) as (l2 & Hrest & Hl2).
      rewrite fold_scanFile_addLogs, addLogs_addLogs in Hrest.
      exists ([ev] ++ l2)%list. split; [exact Hrest|].
      constructor; [exact I | exact Hl2].
Qed.

Lemma walk_outcome : forall e path, walkOutcome path e.
Proof.
  induction e as [n sz mt | n sz mt rd cs IH | n err] using entry_ind';
    intros path st.
  - exists ErrNil, []. cbn [walk visit fold_left entryInfo].
    rewrite hashDirFn_file, addLogs_nil. auto.
  - cbn [walk entryInfo]. destruct rd as [e|].
    + rewrite hashDirFn_error. cbn [visit fold_left].
      eexists ErrNil, [_]. split; [reflexivity|].
      split; [repeat constructor | auto].
    + rewrite hashDirFn_dir. cbn [visit].
      destruct (hiddenDir n).
      * exists ErrSkipDir, []. cbn [fold_left]. rewrite addLogs_nil. auto.
      * destruct (walkNames_outcome path cs IH st) as (logs & Hn & Hl).
        exists ErrNil, logs. auto.
  - cbn [walk visit fold_left]. rewrite hashDirFn_error.
    eexists ErrNil, [_]. split; [reflexivity|].
    split; [repeat constructor | auto].
Qed.

(** [Walk] with the callback of [hashDir] never returns an error. *)
Lemma Walk_outcome (root : entry) (st : Scan) :
  exists logs,
    Walk hashDirFn root st
    = (None,
       addLogs logs (fold_left (fun s f => scanFile f s) (visit [] root) st))
    /\ Forall isLog logs.
Proof.
  destruct (walk_outcome root [] st) as (r & logs & Hw & Hl & Hr).
  exists logs. split; [|exact Hl].
  assert (HW : Walk hashDirFn root st
               = (let '(err, s') := walk hashDirFn [] root st in
                  match err with
                  | ErrNil | ErrSkipDir => (None, s')
                  | ErrOther e => (Some e, s')
                  end)) by (destruct root; reflexivity).
  rewrite HW, Hw. destruct Hr as [-> | [-> _]]; reflexivity.
Qed.

(* ================================================================= *)
(** ** The result of [hashDir] in closed form *)

Lemma set_prevDepMTime_same (w : Watcher) :
  set_prevDepMTime (prevDepMTime w) w = w.
Proof. destruct w; reflexivity. Qed.

Lemma last_cons_default (m d : Time) (l : list Time) :
  List.last (m :: l) d = List.last l m.
Proof.
  revert m d; induction l as [|x l IH]; intros m d; [reflexivity|].
  change (List.last (m :: x :: l) d) with (List.last (x :: l) d).
  now rewrite !IH.
Qed.

Lemma changedFrom_cons (m prev : Time) (l : list Time) :
  negb (Time_eqb m prev) || changedFrom m l
  = negb (Time_eqb m prev) || changedFrom prev l.
Proof.
  destruct (Time_eqb m prev) eqn:E; [|reflexivity].
  apply Time_eqb_eq in E. now subst.
Qed.

Lemma scanFile_eq (f : Path * FileInfo) (st : Scan) :
  let w := scanW st in
  scanFile f st
  = mkScan (if acceptsFile w f
            then hashFile (scanHash st) (Rel (fst f)) (snd f)
            else scanHash st)
           (scanDep st || changedFrom (prevDepMTime w) (fileTimes w f))
           (set_prevDepMTime (List.last (fileTimes w f) (prevDepMTime w)) w)
           (scanLog st).
Proof.
  destruct f as [path info], st as [h d w l].
  unfold scanFile, fileTimes, acceptsFile, isDepFile, depCheck; simpl.
  destruct (shouldProcess w (Rel path)); simpl.
  - destruct (negb (depFile w =? "") && (pathBase (dir w) path =? Base (depFile w)));
      simpl.
    + destruct (Time_eqb (ModTime info) (prevDepMTime w)) eqn:E; simpl.
      * apply Time_eqb_eq in E. rewrite E, set_prevDepMTime_same.
        now rewrite orb_false_r.
      * now rewrite orb_true_r.
    + now rewrite orb_false_r, set_prevDepMTime_same.
  - now rewrite orb_false_r, set_prevDepMTime_same.
Qed.

Lemma fold_scanFile_eq (fs : list (Path * FileInfo)) (st : Scan) :
  let w := scanW st in
  fold_left (fun s f => scanFile f s) fs st
  = mkScan (digest (filter (acceptsFile w) fs) (scanHash st))
           (scanDep st
            || changedFrom (prevDepMTime w) (flat_map (fileTimes w) fs))
           (set_prevDepMTime
              (List.last (flat_map (fileTimes w) fs) (prevDepMTime w)) w)
           (scanLog st).
Proof.
  revert st; induction fs as [|f fs IH]; intros st; cbn zeta.
  - destruct st as [h d w l]; simpl.
    now rewrite orb_false_r, set_prevDepMTime_same.
  - cbn [fold_left]. rewrite IH, scanFile_eq. cbn [scanHash scanDep scanW scanLog].
    set (w := scanW st). set (prev := prevDepMTime w).
    change (acceptsFile (set_prevDepMTime (List.last (fileTimes w f) prev) w))
      with (acceptsFile w).
    change (fileTimes (set_prevDepMTime (List.last (fileTimes w f) prev) w))
      with (fileTimes w).
    change (prevDepMTime (set_prevDepMTime (List.last (fileTimes w f) prev) w))
      with (List.last (fileTimes w f) prev).
    cbn [filter flat_map]. unfold digest.
    assert (Hft : fileTimes w f = [] \/ exists m, fileTimes w f = [m]).
    { unfold fileTimes. destruct (acceptsFile w f && isDepFile w f); eauto. }
    f_equal.
    + destruct (acceptsFile w f); reflexivity.
    + rewrite <- orb_assoc. f_equal.
      destruct Hft as [-> | [m ->]]; [reflexivity|].
      cbn [app List.last changedFrom existsb]. rewrite orb_false_r.
      apply changedFrom_cons.
    + destruct Hft as [-> | [m ->]]; [reflexivity|].
      cbn [app].
      rewrite (last_cons_default m prev (flat_map (fileTimes w) fs)).
      reflexivity.
Qed.

Lemma flat_map_fileTimes (w : Watcher) (fs : list (Path * FileInfo)) :
  flat_map (fileTimes w) fs
  = modTimes (filter (isDepFile w) (filter (acceptsFile w) fs)).
Proof.
  induction fs as [|f fs IH]; [reflexivity|].
  cbn [flat_map filter]. unfold fileTimes at 1.
  destruct (acceptsFile w f); simpl; [|exact IH].
  destruct (isDepFile w f); simpl; now rewrite IH.
Qed.

(** [hashDir] never returns an error; the digest is that of the
    accepted files, [depChanged] tells whether the time of some
    dependency file differs from the stored one, and the stored time
    becomes that of the last dependency file reached. *)
Lemma hashDir_eq (w : Watcher) (root : entry) :
  exists logs,
    hashDir w root
    = ((digest (accepted w root) offset64,
        changedFrom (prevDepMTime w) (modTimes (depFiles w root)),
        None),
       set_prevDepMTime
         (List.last (modTimes (depFiles w root)) (prevDepMTime w)) w,
       logs)
    /\ Forall isLog logs.
Proof.
  unfold hashDir.
  destruct (Walk_outcome root (mkScan offset64 false w [])) as (logs & HW & Hl).
  rewrite HW, fold_scanFile_eq. cbn [scanW scanHash scanDep scanLog addLogs].
  rewrite flat_map_fileTimes. exists logs. split; [reflexivity | exact Hl].
Qed.

(* ================================================================= *)
(** ** CommandRunner *)

Lemma runShell_nonempty (command : string) (s : Sys) :
  command <> "" -> runShell command s = cmdRun (shArgs command) s.
Proof.
  intros H. unfold runShell.
  destruct (String.eqb_spec command ""); [contradiction | reflexivity].
Qed.

(** C9 (as amended). [runShell] on the empty string returns success at
    once and starts nothing: the state, trace included, is unchanged.
    On any other string it makes one [cmd.Run()] of
    ["/bin/sh" "-c" command] and starts or kills nothing else.  When
    the shell cannot be started it returns that error and nothing has
    run; else it waits for the shell, which has then run exactly once:
    for a shell that exits it returns an error exactly when the exit
    status is not 0, and for a shell ended by a signal it returns an
    error. *)
Theorem runShell_contract (command : string) (s : Sys) :
  (command = "" -> runShell command s = (None, s))
  /\ (command <> "" ->
      let s' := snd (runShell command s) in
      nRuns s' = Datatypes.S (nRuns s)
      /\ nCmds s' = nCmds s /\ live s' = live s /\ watcher s' = watcher s
      /\ (forall e,
            exits s (nRuns s) = StartError e ->
            fst (runShell command s) = Some e /\ trace s' = trace s)
      /\ (forall code,
            exits s (nRuns s) = Exited code ->
            trace s' = (trace s ++ [EvRun ["/bin/sh"; "-c"; command] code])%list
            /\ (fst (runShell command s) <> None <-> code <> 0%Z))
      /\ (forall sig,
            exits s (nRuns s) = Signaled sig ->
            trace s' = (trace s ++ [EvRun ["/bin/sh"; "-c"; command] (-1)])%list
            /\ fst (runShell command s) = Some ("signal: " ++ sig))).
Proof.
  split.
  - intros ->. reflexivity.
  - intros H. cbn zeta. rewrite runShell_nonempty by exact H.
    unfold cmdRun.
    destruct (exits s (nRuns s)) as [e | code | sig];
      cbn [fst snd trace nRuns nCmds live watcher];
      (do 4 (split; [reflexivity|])); (split; [|split]);
      try (intros x Hx; discriminate Hx).
    + intros e' He. injection He as <-. split; reflexivity.
    + intros code' He. injection He as <-. split; [reflexivity|].
      destruct (Z.eqb_spec code 0); split; intros Hc;
        first [ now elim Hc | assumption | discriminate ].
    + intros sig' He. injection He as <-. split; reflexivity.
Qed.

Lemma runShell_contract_witness :
  runShell "" failingSys = (None, failingSys)
  /\ trace (snd (runShell "make" failingSys))
     = [EvRun ["/bin/sh"; "-c"; "make"] 2%Z]
  /\ fst (runShell "make" failingSys) <> None.
Proof.
  assert (Hne : "make" <> "") by discriminate.
  assert (Hex : exits failingSys (nRuns failingSys) = Exited 2) by reflexivity.
  destruct (proj2 (runShell_contract "make" failingSys) Hne)
    as (_ & _ & _ & _ & _ & Hrun & _).
  destruct (Hrun 2%Z Hex) as [Ht Hiff].
  split; [|split].
  - apply (proj1 (runShell_contract "" failingSys)). reflexivity.
  - exact Ht.
  - apply Hiff. discriminate.
Defined.

(** The claim C9 fails when the shell cannot be started: [runShell]
    reports a failure although no command has run, let alone exited
    with a status other than 0.  It reports a failure as well for a
    shell that a signal ended before it could exit. *)
Lemma runShell_start_failure :
  fst (runShell "make" noShellSys) <> None
  /\ trace (snd (runShell "make" noShellSys)) = []
  /\ (forall code,
        ~ In (EvRun ["/bin/sh"; "-c"; "make"] code)
             (trace (snd (runShell "make" noShellSys))))
  /\ fst (runShell "make" killedSys) = Some "signal: killed".
Proof.
  split; [discriminate|]. split; [reflexivity|].
  split; [intros code [] | reflexivity].
Qed.

(* ================================================================= *)
(** ** ProcessSupervisor *)

(** C10. With an empty run command [startApp] still starts a shell,
    for the command line ["/bin/sh" "-c" ""]: the start is attempted
    whatever its outcome, and when it succeeds the new process lives
    and its handle is stored as the current process.  [runShell] on the
    same string starts nothing. *)
Theorem startApp_empty_runCmd (s : Sys) :
  runCmd (watcher s) = "" ->
  let id := nCmds s in
  let s' := snd (startApp s) in
  (exists pre,
     trace s' = (pre ++ [EvStart id ["/bin/sh"; "-c"; ""] (starts s id)])%list)
  /\ nCmds s' = Datatypes.S id
  /\ (starts s id = true ->
      fst (startApp s) = None
      /\ process (watcher s')
         = Some (mkCmd id ["/bin/sh"; "-c"; ""] (Some id))
      /\ In id (live s') /\ In id (pending s'))
  /\ runShell (runCmd (watcher s)) s = (None, s).
Proof.
  intros Hrun. cbn zeta.
  unfold startApp, bind, getW, emit, kill, modifyW, cmdStart, goExitWatcher,
    ret, shArgs.
  rewrite Hrun.
  destruct (process (watcher s)) as [c|]; [destruct (Process c) as [pid|]|];
    cbn -[without]; destruct (starts s (nCmds s)) eqn:Hs; cbn -[without];
    (split; [eexists; reflexivity|]);
    (split; [reflexivity|]);
    (split; [|reflexivity]);
    intros Hok; try discriminate Hok; auto.
Qed.

Lemma startApp_empty_runCmd_witness :
  let s := initSys (NewWatcher "." 1000 "make" "" "" "" [] [])
                   (fun _ => Exited 0) (fun _ => true) in
  process (watcher (snd (startApp s)))
  = Some (mkCmd 0 ["/bin/sh"; "-c"; ""] (Some 0%nat))
  /\ trace (snd (startApp s))
     = [EvLog "Starting app..."; EvStart 0 ["/bin/sh"; "-c"; ""] true].
Proof.
  cbn zeta. split.
  - apply (startApp_empty_runCmd
             (initSys (NewWatcher "." 1000 "make" "" "" "" [] [])
                      (fun _ => Exited 0) (fun _ => true)));
      reflexivity.
  - reflexivity.
Defined.

(** The exit-watcher writes [nil] whatever the handle holds. *)
Lemma exitWatcher_clears (id : nat) (s : Sys) :
  process (watcher (snd (exitWatcher id s))) = None.
Proof. reflexivity. Qed.

(** C1. After two restarts the handle is the second command, whose
    process is alive.  When the exit-watcher of the first command (the
    one the second restart killed) then runs, it writes [nil] over that
    newer handle: the second process stays alive but is tracked no
    more, and a third restart kills nothing and leaves two application
    processes alive. *)
Theorem exitWatcher_clears_newer_handle :
  let s2 := snd (acts [ActRestart; ActRestart] sampleSys) in
  let s3 := snd (act (ActWatcher 0) s2) in
  let s4 := snd (act ActRestart s3) in
  process (watcher s2) = Some (mkCmd 1 ["/bin/sh"; "-c"; "./app"] (Some 1%nat))
  /\ killed s2 = [0%nat] /\ pending s2 = [1%nat; 0%nat]
  /\ process (watcher s3) = None /\ live s3 = [1%nat]
  /\ killed s4 = [0%nat] /\ live s4 = [2%nat; 1%nat].
Proof. cbn zeta. repeat split. Qed.

Lemma supInv_init (w : Watcher) (ex : nat -> RunOutcome) (st : nat -> bool) :
  process w = None -> supInv (initSys w ex st).
Proof.
  intros Hp; split; simpl.
  - intros c Hc. congruence.
  - intros k [].
Qed.

Lemma startApp_supInv (s : Sys) : supInv s -> supInv (snd (startApp s)).
Proof.
  intros [Hcur Hkilled].
  unfold startApp, bind, getW, emit, kill, modifyW, cmdStart, goExitWatcher,
    ret.
  destruct (process (watcher s)) as [c|] eqn:Hp.
  - destruct (Hcur c eq_refl) as (Hproc & Hlt & Hnot). rewrite Hproc.
    cbn -[without]. destruct (starts s (nCmds s)); cbn -[without]; split;
      cbn -[without].
    + intros c' Hc'. injection Hc' as <-. cbn. repeat split; [lia|].
      intros [Heq | Hin]; [lia|]. apply Hkilled in Hin. lia.
    + intros k [<- | Hin]; [lia|]. apply Hkilled in Hin. lia.
    + intros c' Hc'. discriminate Hc'.
    + intros k [<- | Hin]; [lia|]. apply Hkilled in Hin. lia.
  - cbn -[without]. destruct (starts s (nCmds s)); cbn -[without]; split;
      cbn -[without].
    + intros c' Hc'. injection Hc' as <-. cbn. repeat split; [lia|].
      intros Hin. apply Hkilled in Hin. lia.
    + intros k Hin. apply Hkilled in Hin. lia.
    + intros c' Hc'. rewrite Hp in Hc'. discriminate Hc'.
    + intros k Hin. apply Hkilled in Hin. lia.
Qed.

Lemma act_supInv (a : Action) (s : Sys) : supInv s -> supInv (snd (act a s)).
Proof.
  intros H. destruct a as [|id|id].
  - apply (startApp_supInv s) in H. unfold act, bind, ret.
    destruct (startApp s) as [r s']. exact H.
  - exact H.
  - unfold act. destruct (memb id (pending s) && negb (memb id (live s)));
      [|exact H].
    destruct H as [_ Hk]. split.
    + intros c Hc. discriminate Hc.
    + exact Hk.
Qed.

Lemma acts_supInv (l : list Action) (s : Sys) :
  supInv s -> supInv (snd (acts l s)).
Proof.
  revert s; induction l as [|a l IH]; intros s H; [exact H|].
  cbn [acts]. unfold bind.
  pose proof (act_supInv a s H) as Ha.
  destruct (act a s) as [u s']. apply IH. exact Ha.
Qed.

(** C8. Whatever sequence of restarts, process exits and exit-watcher
    runs a new watcher goes through, and wherever it is observed, the
    supervisor tracks at most one handle, and the handle it tracks is
    never one of a process that [startApp] has killed and cleared. *)
Theorem supervisor_single_handle
    (d : string) (i : Z) (b r df dc : string) (inc exc : list string)
    (ex : nat -> RunOutcome) (st : nat -> bool) (l : list Action) :
  let s := snd (acts l (initSys (NewWatcher d i b r df dc inc exc) ex st)) in
  (List.length (tracked s) <= 1)%nat
  /\ (forall c, In c (tracked s) -> ~ In (cmdId c) (killed s)).
Proof.
  cbn zeta.
  pose proof (acts_supInv l (initSys (NewWatcher d i b r df dc inc exc) ex st)
                (supInv_init (NewWatcher d i b r df dc inc exc) ex st eq_refl))
    as [Hcur _].
  unfold tracked.
  destruct (process (watcher (snd (acts l _)))) as [c|] eqn:Hp; simpl.
  - split; [lia|]. intros c' [<- | []]. now apply Hcur.
  - split; [lia|]. intros c' [].
Qed.

(* ================================================================= *)
(** ** Dependency step, build step, restart *)

Ltac unfold_prog :=
  unfold runBuild, afterBuild, startApp, sleep, runShell, bind, getW, emit,
    modifyW, cmdRun, cmdStart, kill, goExitWatcher, ret, shArgs.

Ltac reduce_prog :=
  cbn -[Z.eqb String.eqb String.append Sprintf_d without].

Ltac case_prog :=
  repeat (reduce_prog;
          match goal with
          | |- context [if ?b then _ else _] => destruct b eqn:?
          | |- context [match exits ?s ?n with _ => _ end] =>
              destruct (exits s n) as [?e | ?code | ?sig] eqn:?
          | |- context [match process ?w with _ => _ end] =>
              destruct (process w) as [?c|] eqn:?
          | |- context [match Process ?c with _ => _ end] =>
              destruct (Process c) as [?pid|] eqn:?
          end);
  reduce_prog.

Lemma runBuild_frame (d : bool) (s : Sys) :
  let s1 := snd (runBuild d s) in
  watcher s1 = watcher s /\ nCmds s1 = nCmds s /\ live s1 = live s
  /\ pending s1 = pending s /\ killed s1 = killed s
  /\ exits s1 = exits s /\ starts s1 = starts s
  /\ exists evs, trace s1 = (trace s ++ evs)%list /\ Forall isLogOrRun evs.
Proof.
  cbn zeta. unfold_prog. case_prog;
    repeat (split; [reflexivity|]);
    rewrite <- ?app_assoc; eexists; (split; [reflexivity|]);
    repeat constructor.
Qed.

Lemma runBuild_ok_runs (d : bool) (s : Sys) :
  fst (runBuild d s) = None ->
  (forall a c, In (EvRun a c) (trace (snd (runBuild d s))) ->
               In (EvRun a c) (trace s) \/ c = 0%Z)
  /\ (buildCmd (watcher s) <> "" ->
      exists pre,
        trace (snd (runBuild d s))
        = (pre ++ [EvRun (shArgs (buildCmd (watcher s))) 0%Z])%list).
Proof.
  unfold_prog. case_prog; intros Hr; try discriminate Hr;
    repeat match goal with
           | H : (_ =? _)%Z = true |- _ => apply Z.eqb_eq in H
           | H : (_ =? _)%string = true |- _ => apply String.eqb_eq in H
           end;
    (split;
     [ intros a c Hin;
       repeat (apply in_app_or in Hin as [Hin | Hin]);
       try (now left);
       destruct Hin as [Hin | []]; try discriminate Hin;
       injection Hin as _ <-; right; assumption
     | intros Hb; try contradiction;
       eexists;
       match goal with
       | H : _ = 0%Z |- _ => rewrite H
       end; reflexivity ]).
Qed.

Lemma afterBuild_ok_trace (s : Sys) :
  exists pre post,
    trace (snd (afterBuild None s))
    = (trace s ++ pre
         ++ EvStart (nCmds s) (shArgs (runCmd (watcher s))) (starts s (nCmds s))
            :: post)%list
    /\ (forall a c, ~ In (EvRun a c) pre)
    /\ (forall a c, ~ In (EvRun a c) post).
Proof.
  unfold_prog. case_prog; rewrite <- ?app_assoc; cbn [app];
    first [ eexists [_], _; split; [reflexivity|]
          | eexists [_; _; _], _; split; [reflexivity|] ];
    split; intros args code Hin; cbn in Hin; intuition discriminate.
Qed.

(** C7. In a cycle that found a change, with [r] what [runBuild]
    returns: the dependency command is run only when [depChanged] holds
    and a dependency command is configured, and then it is the first
    command run; when it fails (it cannot be started, exits with a
    status other than 0, or is ended by a signal), [runBuild] ends
    there, so the build command is not run; whenever [runBuild] fails nothing is started or killed
    in that cycle and the handle stays as it was; and when the restart
    is made, every command that [runBuild] ran has exited with status
    0, the build command last, and the start of the application comes
    after them in the trace. *)
Theorem build_sequence (d : bool) (s : Sys) :
  let w := watcher s in
  let r := fst (runBuild d s) in
  let s1 := snd (runBuild d s) in
  let s2 := snd (afterBuild r s1) in
  let depLog := EvLog (depFile w ++ " changed: running " ++ depCmd w ++ "...") in
  let buildStep :=
    emit (EvLog "Running build command...") ;; runShell (buildCmd w) in
  let outcome := exits s (nRuns s) in
  (d && negb (depCmd w =? "") = false -> runBuild d s = buildStep s)
  /\ (d && negb (depCmd w =? "") = true ->
      exists sd,
        trace sd
        = (trace s
             ++ depLog
                :: match outcome with
                   | StartError _ => []
                   | Exited code => [EvRun (shArgs (depCmd w)) code]
                   | Signaled _ => [EvRun (shArgs (depCmd w)) (-1)]
                   end)%list
        /\ nRuns sd = Datatypes.S (nRuns s)
        /\ (outcome <> Exited 0 -> r <> None /\ s1 = sd)
        /\ (outcome = Exited 0 -> runBuild d s = buildStep sd))
  /\ (r <> None ->
      nCmds s2 = nCmds s /\ live s2 = live s /\ killed s2 = killed s
      /\ watcher s2 = watcher s
      /\ exists e,
           trace s2
           = (trace s1 ++ [EvLog ("Build failed: " ++ e); EvSleep (interval w)])%list)
  /\ (r = None ->
      (forall a c, In (EvRun a c) (trace s1) -> In (EvRun a c) (trace s) \/ c = 0%Z)
      /\ (buildCmd w <> "" ->
          exists pre, trace s1 = (pre ++ [EvRun (shArgs (buildCmd w)) 0%Z])%list)
      /\ exists pre post,
           trace s2
           = (trace s1 ++ pre
                ++ EvStart (nCmds s) (shArgs (runCmd w)) (starts s (nCmds s))
                   :: post)%list
           /\ (forall a c, ~ In (EvRun a c) pre)
           /\ (forall a c, ~ In (EvRun a c) post)).
Proof.
  cbn zeta. split; [|split; [|split]].
  - intros Hd. unfold runBuild, bind, getW. rewrite Hd. reflexivity.
  - intros Hd. pose proof Hd as Hd'.
    apply andb_true_iff in Hd' as [_ Hc]. apply negb_true_iff in Hc.
    exists (snd (cmdRun (shArgs (depCmd (watcher s)))
                   (snd (emit (EvLog (depFile (watcher s)
                                      ++ " changed: running "
                                      ++ depCmd (watcher s) ++ "...")) s)))).
    unfold_prog. rewrite Hd, Hc. reduce_prog.
    destruct (exits s (nRuns s)) as [e | code | sig] eqn:Hex; reduce_prog.
    + split; [reflexivity|]. split; [reflexivity|]. split.
      * intros _. split; [discriminate | reflexivity].
      * intros He. discriminate He.
    + split; [rewrite <- app_assoc; reflexivity|].
      split; [reflexivity|]. split.
      * intros Hne. destruct (Z.eqb_spec code 0) as [-> | Hz];
          [now elim Hne|].
        reduce_prog. split; [discriminate | reflexivity].
      * intros He. injection He as ->. reflexivity.
    + split; [rewrite <- app_assoc; reflexivity|].
      split; [reflexivity|]. split.
      * intros _. split; [discriminate | reflexivity].
      * intros He. discriminate He.
  - pose proof (runBuild_frame d s) as (Hw & Hn & Hl & _ & Hk & _).
    destruct (runBuild d s) as [r s1]. cbn [fst snd] in *.
    intros Hr. destruct r as [e|]; [|congruence].
    unfold afterBuild, sleep, bind, getW, emit. reduce_prog.
    rewrite Hw. repeat (split; [assumption || reflexivity|]).
    exists e. rewrite <- app_assoc. reflexivity.
  - intros Hr.
    destruct (runBuild_ok_runs d s Hr) as [Hruns Hlast].
    split; [exact Hruns|]. split; [exact Hlast|].
    pose proof (runBuild_frame d s) as (Hw & Hn & _ & _ & _ & _ & Hst & _).
    rewrite Hr.
    destruct (afterBuild_ok_trace (snd (runBuild d s)))
      as (pre & post & Ht & Hpre & Hpost).
    rewrite Hw, Hn, Hst in Ht. exists pre, post. auto.
Qed.
(* ================================================================= *)
(** ** What the steps of the loop leave unchanged *)

Lemma sameConfig_refl (w : Watcher) : sameConfig w w.
Proof. repeat split. Qed.

Lemma sameButProcess_refl (w : Watcher) : sameButProcess w w.
Proof. repeat split. Qed.

Lemma sameButProcess_trans (a b c : Watcher) :
  sameButProcess a b -> sameButProcess b c -> sameButProcess a c.
Proof.
  unfold sameButProcess, sameConfig. intuition congruence.
Qed.

Lemma startApp_sameButProcess (s : Sys) :
  sameButProcess (watcher (snd (startApp s))) (watcher s)
  /\ nRuns (snd (startApp s)) = nRuns s.
Proof. unfold_prog. case_prog; repeat split. Qed.

Lemma afterBuild_sameButProcess (r : option error) (s : Sys) :
  sameButProcess (watcher (snd (afterBuild r s))) (watcher s).
Proof. destruct r; unfold_prog; case_prog; repeat split. Qed.

Lemma act_sameButProcess (a : Action) (s : Sys) :
  sameButProcess (watcher (snd (act a s))) (watcher s).
Proof.
  destruct a as [|id|id]; unfold act.
  - unfold bind, ret. pose proof (startApp_sameButProcess s) as [H _].
    destruct (startApp s). exact H.
  - repeat split.
  - destruct (memb id (pending s) && negb (memb id (live s))); repeat split.
Qed.

Lemma acts_sameButProcess (l : list Action) (s : Sys) :
  sameButProcess (watcher (snd (acts l s))) (watcher s).
Proof.
  revert s; induction l as [|a l IH]; intros s; [apply sameButProcess_refl|].
  cbn [acts]. unfold bind.
  pose proof (act_sameButProcess a s) as Ha.
  destruct (act a s) as [u s']. cbn [snd] in Ha.
  eapply sameButProcess_trans; [apply IH | exact Ha].
Qed.

(** The accepted files, and so the digest, depend on the configuration
    only. *)
Lemma accepted_sameConfig (a b : Watcher) (root : entry) :
  sameConfig a b -> accepted a root = accepted b root.
Proof.
  intros (_ & _ & _ & _ & Hi & He & _). unfold accepted.
  apply filter_ext. intros f. unfold acceptsFile, shouldProcess.
  now rewrite Hi, He.
Qed.

(* ================================================================= *)
(** ** The scan as a step of the loop *)

Lemma hashDirM_eq (root : entry) (s : Sys) :
  exists logs,
    Forall isLog logs
    /\ hashDirM root s
       = ((digest (accepted (watcher s) root) offset64,
           changedFrom (prevDepMTime (watcher s))
                       (modTimes (depFiles (watcher s) root)),
           None),
          mkSys (set_prevDepMTime
                   (List.last (modTimes (depFiles (watcher s) root))
                              (prevDepMTime (watcher s)))
                   (watcher s))
                (exits s) (nRuns s) (starts s) (nCmds s)
                (live s) (pending s) (killed s) (trace s ++ logs)%list).
Proof.
  destruct (hashDir_eq (watcher s) root) as (logs & Hh & Hl).
  exists logs. split; [exact Hl|].
  unfold hashDirM. rewrite Hh. reflexivity.
Qed.

Lemma hashDir_results (w : Watcher) (root : entry) :
  resHash (hashDir w root) = digest (accepted w root) offset64
  /\ resDep (hashDir w root)
     = changedFrom (prevDepMTime w) (modTimes (depFiles w root))
  /\ resErr (hashDir w root) = None
  /\ resWatcher (hashDir w root)
     = set_prevDepMTime
         (List.last (modTimes (depFiles w root)) (prevDepMTime w)) w.
Proof.
  destruct (hashDir_eq w root) as (logs & Hh & _). rewrite Hh.
  repeat split.
Qed.

(** C2 (as amended). [hashDir] logs and skips every access error, a
    failure to reach the root included, and never returns an error:
    for a root whose [Lstat] fails it returns the digest of no file,
    [depChanged = false] and [nil], with one log line.  An entry whose
    [Lstat] fails and a directory that cannot be read add no file to
    the traversal, which goes on: the digest is that of all accepted
    files reached.  The error branch of [Run], which only a non-nil
    error would take, logs and sleeps and changes nothing else. *)
Theorem scan_errors_logged_not_surfaced (w : Watcher) (root : entry) :
  resErr (hashDir w root) = None
  /\ (forall n e,
        hashDir w (Broken n e)
        = ((offset64, false, None), w,
           [EvLog ("Error accessing " ++ dir w ++ ": " ++ e)]))
  /\ (forall path info e st,
        hashDirFn path info (Some e) st
        = (ErrNil,
           scanEmit (EvLog ("Error accessing "
                            ++ pathText (dir (scanW st)) path ++ ": " ++ e))
                    st))
  /\ (forall p n e, visit p (Broken n e) = [])
  /\ (forall p n sz mt e cs, visit p (Dir n sz mt (Some e) cs) = [])
  /\ resHash (hashDir w root) = digest (accepted w root) offset64
  /\ (forall h d e s,
        afterScan (h, d, Some e) s
        = (tt, mkSys (watcher s) (exits s) (nRuns s) (starts s) (nCmds s)
                     (live s) (pending s) (killed s)
                     (trace s ++ [EvLog ("Error hashing dir: " ++ e);
                                  EvSleep (interval (watcher s))])%list)).
Proof.
  destruct (hashDir_results w root) as (Hh & _ & He & _).
  split; [exact He|]. split; [reflexivity|]. split; [reflexivity|].
  split; [reflexivity|]. split; [reflexivity|]. split; [exact Hh|].
  intros h d e s. unfold afterScan, sleep, bind, getW, emit. reduce_prog.
  now rewrite <- app_assoc.
Qed.

(* ================================================================= *)
(** ** One iteration of the loop *)

Lemma iteration_unchanged (root : entry) (s : Sys) :
  digest (accepted (watcher s) root) offset64 = prevHash (watcher s) ->
  exists logs,
    Forall isLog logs
    /\ iteration root s
       = (tt, mkSys (scanned (watcher s) root)
                    (exits s) (nRuns s) (starts s) (nCmds s)
                    (live s) (pending s) (killed s)
                    (trace s ++ logs ++ [EvSleep (interval (watcher s))])%list).
Proof.
  intros Heq. destruct (hashDirM_eq root s) as (logs & Hl & HM).
  exists logs. split; [exact Hl|].
  unfold iteration, bind. rewrite HM.
  unfold afterScan, sleep, bind, getW, emit. reduce_prog.
  rewrite Heq, Z.eqb_refl. reduce_prog. now rewrite <- app_assoc.
Qed.

Lemma iteration_changed (root : entry) (s : Sys) :
  digest (accepted (watcher s) root) offset64 <> prevHash (watcher s) ->
  exists logs,
    Forall isLog logs
    /\ iteration root s
       = (r <- runBuild (changedFrom (prevDepMTime (watcher s))
                                     (modTimes (depFiles (watcher s) root))) ;;
          afterBuild r)
           (mkSys (set_prevHash (digest (accepted (watcher s) root) offset64)
                                (scanned (watcher s) root))
                  (exits s) (nRuns s) (starts s) (nCmds s)
                  (live s) (pending s) (killed s)
                  (trace s ++ logs
                     ++ [EvLog "Change detected, rebuilding..."])%list).
Proof.
  intros Hne. destruct (hashDirM_eq root s) as (logs & Hl & HM).
  exists logs. split; [exact Hl|].
  unfold iteration. unfold bind at 1. rewrite HM.
  unfold afterScan. unfold bind at 1, getW at 1. reduce_prog.
  apply Z.eqb_neq in Hne. rewrite Hne. reduce_prog.
  now rewrite <- app_assoc.
Qed.

Lemma scanned_sameConfig (w : Watcher) (root : entry) :
  sameConfig (scanned w root) w.
Proof. repeat split. Qed.

(** After an iteration, whatever the commands did: the configuration
    is the same, the stored fingerprint is the digest just computed,
    and the stored time is the one the scan left. *)
Lemma iteration_post (root : entry) (s : Sys) :
  let s1 := snd (iteration root s) in
  sameConfig (watcher s1) (watcher s)
  /\ prevHash (watcher s1) = digest (accepted (watcher s) root) offset64
  /\ prevDepMTime (watcher s1) = prevDepMTime (scanned (watcher s) root).
Proof.
  cbn zeta.
  destruct (Z.eq_dec (digest (accepted (watcher s) root) offset64)
                     (prevHash (watcher s))) as [Heq | Hne].
  - destruct (iteration_unchanged root s Heq) as (logs & _ & Hi).
    rewrite Hi. cbn [snd watcher]. repeat split. now rewrite Heq.
  - destruct (iteration_changed root s Hne) as (logs & _ & Hi).
    rewrite Hi. unfold bind.
    match goal with
    | |- context [runBuild ?d ?m] =>
        pose proof (runBuild_frame d m) as (Hw & _);
        destruct (runBuild d m) as [r s1]
    end.
    cbn [snd watcher] in Hw.
    destruct (afterBuild_sameButProcess r s1) as (Hc & Hh & Ht).
    rewrite Hw in Hc, Hh, Ht. cbn [prevHash prevDepMTime set_prevHash] in Hh, Ht.
    split; [|split; assumption].
    unfold sameConfig in *. cbn in Hc. exact Hc.
Qed.

(** C3. In a cycle whose digest differs from the stored fingerprint,
    the fingerprint is overwritten with the digest before any command
    is attempted: the dependency and build steps start from a state
    that already holds it and in which no command has yet been run or
    started.  It holds the digest when the cycle ends, whatever the
    commands returned.  A later cycle over the same tree, whatever the
    supervisor did in between, compares equal: it runs no command,
    starts nothing, and only logs and sleeps. *)
Theorem fingerprint_stored_before_build (root : entry) (s : Sys) :
  let h := resHash (hashDir (watcher s) root) in
  let d := resDep (hashDir (watcher s) root) in
  h <> prevHash (watcher s) ->
  (exists mid,
     prevHash (watcher mid) = h /\ nRuns mid = nRuns s /\ nCmds mid = nCmds s
     /\ iteration root s = (r <- runBuild d ;; afterBuild r) mid)
  /\ prevHash (watcher (snd (iteration root s))) = h
  /\ (forall l : list Action,
        let s' := snd (acts l (snd (iteration root s))) in
        let s'' := snd (iteration root s') in
        nRuns s'' = nRuns s' /\ nCmds s'' = nCmds s' /\ live s'' = live s'
        /\ killed s'' = killed s'
        /\ process (watcher s'') = process (watcher s')
        /\ prevHash (watcher s'') = h
        /\ exists logs,
             Forall isLog logs
             /\ trace s''
                = (trace s' ++ logs ++ [EvSleep (interval (watcher s))])%list).
Proof.
  cbn zeta. destruct (hashDir_results (watcher s) root) as (Hh & Hd & _).
  rewrite Hh, Hd. intros Hne.
  destruct (iteration_post root s) as (Hcfg & Hprev & _).
  split; [|split; [exact Hprev|]].
  - destruct (iteration_changed root s Hne) as (logs & _ & Hi).
    eexists. split; [|split; [|split; [|exact Hi]]]; reflexivity.
  - intros l.
    set (s1 := snd (iteration root s)) in *.
    destruct (acts_sameButProcess l s1) as (Hc' & Hh' & _).
    set (s' := snd (acts l s1)) in *.
    assert (Hcs : sameConfig (watcher s') (watcher s)).
    { unfold sameConfig in *. intuition congruence. }
    assert (Heq : digest (accepted (watcher s') root) offset64
                  = prevHash (watcher s')).
    { rewrite (accepted_sameConfig _ _ root Hcs). congruence. }
    destruct (iteration_unchanged root s' Heq) as (logs & Hl & Hi).
    rewrite Hi. cbn [snd nRuns nCmds live killed watcher trace].
    repeat (split; [reflexivity|]).
    split; [cbn; congruence|].
    exists logs. split; [exact Hl|].
    destruct Hcs as (_ & Hint & _). now rewrite Hint.
Qed.

(* ================================================================= *)
(** ** Dependency detection *)

Lemma changedFrom_true_iff (t : Time) (ts : list Time) :
  changedFrom t ts = true <-> exists x, In x ts /\ x <> t.
Proof.
  unfold changedFrom. rewrite existsb_exists.
  split; intros (x & Hin & Hx); exists x; (split; [exact Hin|]).
  - apply negb_true_iff in Hx. now apply Time_eqb_neq.
  - apply negb_true_iff. now apply Time_eqb_neq.
Qed.

Lemma changedFrom_false_last (t : Time) (ts : list Time) :
  changedFrom t ts = false -> List.last ts t = t.
Proof.
  induction ts as [|x ts IH]; [reflexivity|].
  intros H. cbn [changedFrom existsb] in H. apply orb_false_iff in H as [Hx Hr].
  apply negb_false_iff, Time_eqb_eq in Hx. subst x.
  rewrite last_cons_default. apply IH. exact Hr.
Qed.

Lemma last_in_list (d : Time) (ts : list Time) :
  ts <> [] -> In (List.last ts d) ts.
Proof.
  induction ts as [|x ts IH]; [congruence|]. intros _.
  destruct ts as [|y ts]; [now left|].
  right. apply IH. discriminate.
Qed.

Lemma in_depFiles (w : Watcher) (root : entry) (p : Path) (i : FileInfo) :
  depFile w <> "" ->
  (In (p, i) (depFiles w root) <->
   In (p, i) (visit [] root) /\ shouldProcess w (Rel p) = true
   /\ pathBase (dir w) p = Base (depFile w)).
Proof.
  intros Hd. unfold depFiles, accepted. rewrite !filter_In.
  unfold isDepFile, acceptsFile. cbn [fst].
  destruct (String.eqb_spec (depFile w) ""); [contradiction|]. cbn [negb andb].
  rewrite String.eqb_eq. tauto.
Qed.

(** C6 (as amended). With a dependency file configured, [hashDir]
    reports [depChanged] exactly when some file that the traversal
    reaches and [shouldProcess] accepts has the base name of the
    dependency file and a modification time other than the stored one.
    The scan then stores the time of such a file, namely of the last
    one reached in the order of the walk; with a single such file
    that is its new time, with several it need not be a time that
    differs from the one stored before.  When nothing changed the
    stored time stays.  What the scan stored is what the watcher holds
    when the cycle ends, whatever the commands of the cycle
    returned. *)
Theorem depChanged_exactly (w : Watcher) (root : entry) :
  depFile w <> "" ->
  let r := hashDir w root in
  (resDep r = true <->
   exists p i,
     In (p, i) (visit [] root) /\ shouldProcess w (Rel p) = true
     /\ pathBase (dir w) p = Base (depFile w)
     /\ ModTime i <> prevDepMTime w)
  /\ (resDep r = true ->
      exists p i,
        In (p, i) (visit [] root) /\ shouldProcess w (Rel p) = true
        /\ pathBase (dir w) p = Base (depFile w)
        /\ prevDepMTime (resWatcher r) = ModTime i)
  /\ prevDepMTime (resWatcher r)
     = List.last (modTimes (depFiles w root)) (prevDepMTime w)
  /\ (forall p i,
        depFiles w root = [(p, i)] -> ModTime i <> prevDepMTime w ->
        resDep r = true /\ prevDepMTime (resWatcher r) = ModTime i)
  /\ (resDep r = false -> prevDepMTime (resWatcher r) = prevDepMTime w)
  /\ (forall s,
        watcher s = w ->
        prevDepMTime (watcher (snd (iteration root s)))
        = prevDepMTime (resWatcher r)).
Proof.
  intros Hd. cbn zeta.
  destruct (hashDir_results w root) as (_ & Hdep & _ & Hw).
  rewrite Hdep, Hw. cbn [prevDepMTime set_prevDepMTime].
  assert (Hiff : changedFrom (prevDepMTime w) (modTimes (depFiles w root)) = true
                 <-> exists p i,
                       In (p, i) (visit [] root)
                       /\ shouldProcess w (Rel p) = true
                       /\ pathBase (dir w) p = Base (depFile w)
                       /\ ModTime i <> prevDepMTime w).
  { rewrite changedFrom_true_iff. split.
    - intros (x & Hin & Hx). apply in_map_iff in Hin as ([p i] & <- & Hin).
      apply in_depFiles in Hin; [|exact Hd].
      exists p, i. tauto.
    - intros (p & i & Hv & Hs & Hb & Hm). exists (ModTime i). split; [|exact Hm].
      apply in_map_iff. exists (p, i). split; [reflexivity|].
      apply in_depFiles; tauto. }
  split; [exact Hiff|]. split; [|split; [reflexivity|split; [|split]]].
  - intros Hc. apply changedFrom_true_iff in Hc as (x & Hin & _).
    assert (Hne : modTimes (depFiles w root) <> []).
    { intros E. rewrite E in Hin. exact Hin. }
    pose proof (last_in_list (prevDepMTime w) _ Hne) as Hlast.
    apply in_map_iff in Hlast as ([p i] & Hm & Hin').
    apply in_depFiles in Hin'; [|exact Hd].
    exists p, i. cbn [snd] in Hm. intuition congruence.
  - intros p i Hone Hm. rewrite Hone. cbn. split; [|reflexivity].
    apply Time_eqb_neq in Hm. now rewrite Hm.
  - apply changedFrom_false_last.
  - intros s <-. destruct (iteration_post root s) as (_ & _ & Ht).
    exact Ht.
Qed.

(* ================================================================= *)
(** ** Hidden directories *)

Lemma hidden_dir_not_visited (p : Path) (n : string) (sz : Z) (mt : Time)
    (rd : option error) (cs : list entry) :
  n <> "." -> firstIsDot n = true -> visit p (Dir n sz mt rd cs) = [].
Proof.
  intros Hn Hdot. cbn [visit]. destruct rd; [reflexivity|].
  unfold hiddenDir. rewrite Hdot.
  destruct (String.eqb_spec n "."); [contradiction | reflexivity].
Qed.

Lemma dot_root_visited (sz : Z) (mt : Time) (cs : list entry) :
  visit [] (Dir "." sz mt None cs) = visitNames visit [] cs.
Proof. reflexivity. Qed.

Lemma file_in_visitNames (p : Path) (cs : list entry)
    (n : string) (sz : Z) (mt : Time) :
  In (File n sz mt) cs ->
  In ((p ++ [n])%list, mkFileInfo n sz mt false) (visitNames visit p cs).
Proof.
  induction cs as [|c cs IH]; intros Hin; [contradiction|].
  cbn [visitNames]. apply in_or_app. destruct Hin as [-> | Hin].
  - left. cbn. now left.
  - right. now apply IH.
Qed.

(** C5. The watcher that [main] builds has the root ["."], and for
    ["."] [Lstat] reports the name ["."] whatever the working
    directory is called, a name that begins with a dot included.  The
    callback does not skip that root: [Walk] goes through the entries
    of the root, every file in it is reached, and the digest that
    [hashDir] returns is the one of the accepted files among them.
    Below the root a directory whose name begins with a dot (a name
    listed by [ReadDir] is never ["."]) is skipped with all that is
    below it: the callback answers [SkipDir] when the directory was
    read and only logs when it was not, the hash, [depChanged] and the
    watcher stay as they were, no file below it is visited, and the
    walk goes on with the next entry. *)
Theorem hidden_directories_skipped_root_traversed (f : Flags) :
  dir (mainWatcher f) = "."
  /\ (forall sz mt cs,
        (forall st,
           Walk hashDirFn (Dir "." sz mt None cs) st
           = (None, snd (walkNames hashDirFn (walk hashDirFn) [] cs st)))
        /\ visit [] (Dir "." sz mt None cs) = visitNames visit [] cs
        /\ (forall n' sz' mt',
              In (File n' sz' mt') cs ->
              In ([n'], mkFileInfo n' sz' mt' false)
                 (visit [] (Dir "." sz mt None cs)))
        /\ resHash (hashDir (mainWatcher f) (Dir "." sz mt None cs))
           = digest (filter (acceptsFile (mainWatcher f))
                            (visitNames visit [] cs)) offset64)
  /\ (forall p n sz mt rd cs st,
        n <> "." -> firstIsDot n = true ->
        walk hashDirFn p (Dir n sz mt rd cs) st
        = match rd with
          | None => (ErrSkipDir, st)
          | Some e =>
              (ErrNil,
               scanEmit (EvLog ("Error accessing "
                                ++ pathText (dir (scanW st)) p
                                ++ ": " ++ e)) st)
          end
        /\ visit p (Dir n sz mt rd cs) = []
        /\ (forall q rest,
              walkNames hashDirFn (walk hashDirFn) q
                        (Dir n sz mt None cs :: rest) st
              = walkNames hashDirFn (walk hashDirFn) q rest st)).
Proof.
  split; [reflexivity|]. split.
  - intros sz mt cs. split; [|split; [reflexivity|split]].
    + intros st.
      assert (Hall : Forall (fun c => forall p, walkOutcome p c) cs).
      { apply Forall_forall. intros c _ p. apply walk_outcome. }
      destruct (walkNames_outcome [] cs Hall st) as (logs & Hn & _).
      unfold Walk. cbn [walk entryInfo]. rewrite hashDirFn_dir.
      cbn [hiddenDir String.eqb Ascii.eqb Bool.eqb negb andb].
      rewrite Hn. reflexivity.
    + intros n' sz' mt' Hin. rewrite dot_root_visited.
      exact (file_in_visitNames [] cs n' sz' mt' Hin).
    + destruct (hashDir_results (mainWatcher f) (Dir "." sz mt None cs))
        as (Hh & _). exact Hh.
  - intros p n sz mt rd cs st Hn Hdot.
    assert (Hh : hiddenDir n = true).
    { unfold hiddenDir. rewrite Hdot.
      destruct (String.eqb_spec n "."); [contradiction | reflexivity]. }
    split; [|split].
    + cbn [walk entryInfo]. destruct rd as [e|].
      * rewrite hashDirFn_error. reflexivity.
      * rewrite hashDirFn_dir, Hh. reflexivity.
    + now apply hidden_dir_not_visited.
    + intros q rest. rewrite walkNames_walked by discriminate.
      cbn [walk entryInfo entryName entryIsDir].
      rewrite hashDirFn_dir, Hh. reflexivity.
Qed.

(* ================================================================= *)
(** ** The rule flags of [main] *)

Lemma SplitComma_String (c : ascii) (s : string) :
  SplitComma (String c s)
  = if Ascii.eqb c "," then "" :: SplitComma s
    else match SplitComma s with
         | piece :: more => String c piece :: more
         | [] => [String c ""]
         end.
Proof. reflexivity. Qed.

Lemma SplitComma_not_nil (s : string) : SplitComma s <> [].
Proof.
  induction s as [|c s IH]; [discriminate|]. rewrite SplitComma_String.
  destruct (Ascii.eqb c ","); [discriminate|].
  destruct (SplitComma s); discriminate.
Qed.

Lemma JoinComma_cons_char (c : ascii) (p : string) (rest : list string) :
  JoinComma (String c p :: rest) = String c (JoinComma (p :: rest)).
Proof. destruct rest; reflexivity. Qed.

Lemma JoinComma_cons_piece (a p : string) (rest : list string) :
  JoinComma (a :: p :: rest) = a ++ "," ++ JoinComma (p :: rest).
Proof. reflexivity. Qed.

Lemma SplitComma_app_comma (a b : string) :
  SplitComma (a ++ String "," b) = (SplitComma a ++ SplitComma b)%list.
Proof.
  induction a as [|c a IH]; [reflexivity|].
  cbn [append]. rewrite !SplitComma_String, IH.
  destruct (Ascii.eqb c ","); [reflexivity|].
  pose proof (SplitComma_not_nil a) as Hne.
  destruct (SplitComma a) as [|p more]; [congruence | reflexivity].
Qed.

(** [strings.Split] at commas and [strings.Join] with commas: joining
    the pieces gives the flag back, no piece holds a comma, and there
    is one piece more than there are commas. *)
Theorem SplitComma_round_trip (s : string) :
  JoinComma (SplitComma s) = s
  /\ Forall (fun p => hasComma p = false) (SplitComma s)
  /\ List.length (SplitComma s) = Datatypes.S (countCommas s).
Proof.
  induction s as [|c s (IHj & IHc & IHl)]; [repeat constructor|].
  rewrite SplitComma_String. cbn [hasComma countCommas].
  pose proof (SplitComma_not_nil s) as Hne.
  destruct (Ascii.eqb_spec c ",") as [-> | Hc].
  - split; [|split].
    + destruct (SplitComma s) as [|p more]; [congruence|].
      rewrite JoinComma_cons_piece, IHj. reflexivity.
    + constructor; [reflexivity | exact IHc].
    + cbn [List.length]. now rewrite IHl.
  - destruct (SplitComma s) as [|p more]; [congruence|].
    split; [|split].
    + rewrite JoinComma_cons_char. now rewrite IHj.
    + inversion IHc as [|? ? Hp Hmore]; subst. constructor; [|exact Hmore].
      cbn [hasComma]. rewrite Hp.
      destruct (Ascii.eqb_spec c ","); [contradiction | reflexivity].
    + exact IHl.
Qed.

Lemma HasPrefix_empty (s : string) : HasPrefix s "" = true.
Proof. unfold HasPrefix. cbn. destruct s; reflexivity. Qed.

Lemma anyRule_empty_rule (p : string) (rules : list string) :
  In "" rules -> anyRule p rules = true.
Proof.
  intros H. apply anyRule_true_iff. exists "". split; [exact H|].
  left. now exists p.
Qed.

Lemma empty_piece_of_flag (flag : string) :
  (exists e, flag = e ++ ",")
  \/ (exists e, flag = "," ++ e)
  \/ (exists a b, flag = a ++ ",," ++ b) ->
  In "" (SplitComma flag) /\ flag <> "".
Proof.
  intros [[e ->] | [[e ->] | (a & b & ->)]].
  - split.
    + rewrite SplitComma_app_comma. apply in_or_app. right. now left.
    + destruct e; discriminate.
  - split; [now left | discriminate].
  - split.
    + change (a ++ ",," ++ b) with (a ++ String "," ("," ++ b)).
      rewrite SplitComma_app_comma. apply in_or_app. right. now left.
    + destruct a; discriminate.
Qed.

Lemma hashDir_same_accepted (w : Watcher) (r1 r2 : entry) :
  accepted w r1 = accepted w r2 ->
  resHash (hashDir w r1) = resHash (hashDir w r2)
  /\ resDep (hashDir w r1) = resDep (hashDir w r2)
  /\ resErr (hashDir w r1) = resErr (hashDir w r2)
  /\ resWatcher (hashDir w r1) = resWatcher (hashDir w r2).
Proof.
  intros H.
  destruct (hashDir_results w r1) as (Hh1 & Hd1 & He1 & Hw1).
  destruct (hashDir_results w r2) as (Hh2 & Hd2 & He2 & Hw2).
  rewrite Hh1, Hh2, Hd1, Hd2, He1, He2, Hw1, Hw2.
  unfold depFiles. rewrite H. repeat split.
Qed.

Lemma rejects_all_no_accepted (w : Watcher) (root : entry) :
  (forall p, shouldProcess w p = false) -> accepted w root = [].
Proof.
  intros H. unfold accepted.
  induction (visit [] root) as [|f fs IH]; [reflexivity|].
  cbn [filter]. unfold acceptsFile at 1. now rewrite H.
Qed.

(** An exclude flag with a trailing or leading comma, or with two
    commas in a row, holds an empty rule, which is a prefix of every
    path: the watcher that [main] builds then rejects every file, and
    every scan returns the digest of nothing, with no dependency
    change. *)
Theorem empty_exclude_rule_rejects_everything (f : Flags) (root : entry) :
  ((exists e, flagExclude f = e ++ ",")
   \/ (exists e, flagExclude f = "," ++ e)
   \/ (exists a b, flagExclude f = a ++ ",," ++ b)) ->
  (forall p, shouldProcess (mainWatcher f) p = false)
  /\ accepted (mainWatcher f) root = []
  /\ resHash (hashDir (mainWatcher f) root) = offset64
  /\ resDep (hashDir (mainWatcher f) root) = false.
Proof.
  intros H. apply empty_piece_of_flag in H as [Hin Hne].
  assert (Hrej : forall p, shouldProcess (mainWatcher f) p = false).
  { intros p. unfold shouldProcess, mainWatcher. cbn [excludes NewWatcher].
    destruct (String.eqb_spec (flagExclude f) ""); [contradiction|].
    now rewrite (anyRule_empty_rule p _ Hin). }
  split; [exact Hrej|].
  pose proof (rejects_all_no_accepted (mainWatcher f) root Hrej) as Hacc.
  split; [exact Hacc|].
  destruct (hashDir_results (mainWatcher f) root) as (Hh & Hd & _).
  rewrite Hh, Hd. unfold depFiles. rewrite Hacc. split; reflexivity.
Qed.

(** An include flag that holds an empty rule (trailing or leading
    comma, two commas in a row) filters nothing: the watcher that
    [main] builds accepts every path that no exclude rule matches. *)
Theorem empty_include_rule_accepts_everything (f : Flags) (p : string) :
  ((exists e, flagInclude f = e ++ ",")
   \/ (exists e, flagInclude f = "," ++ e)
   \/ (exists a b, flagInclude f = a ++ ",," ++ b)) ->
  shouldProcess (mainWatcher f) p
  = negb (anyRule p (excludes (mainWatcher f))).
Proof.
  intros H. apply empty_piece_of_flag in H as [Hin Hne].
  unfold shouldProcess. destruct (anyRule p (excludes (mainWatcher f)));
    [reflexivity|].
  unfold mainWatcher. cbn [includes NewWatcher].
  destruct (String.eqb_spec (flagInclude f) ""); [contradiction|].
  pose proof (SplitComma_not_nil (flagInclude f)) as Hnil.
  destruct (SplitComma (flagInclude f)) as [|r rs] eqn:E; [congruence|].
  cbn [List.length Nat.eqb]. now rewrite (anyRule_empty_rule p _ Hin).
Qed.

(* ================================================================= *)
(** ** The digest *)

Lemma fnvWrite_app (h : Z) (a b : string) :
  fnvWrite h (a ++ b) = fnvWrite (fnvWrite h a) b.
Proof.
  revert h; induction a as [|c a IH]; intros h; [reflexivity|].
  cbn [append fnvWrite]. apply IH.
Qed.

Lemma fnvWrite_range (h : Z) (s : string) :
  (0 <= h < two64)%Z -> (0 <= fnvWrite h s < two64)%Z.
Proof.
  revert h; induction s as [|c s IH]; intros h Hh; [exact Hh|].
  cbn [fnvWrite]. apply IH. unfold fnvWriteByte.
  apply Z.mod_pos_bound. reflexivity.
Qed.

Lemma digest_range (fs : list (Path * FileInfo)) (h : Z) :
  (0 <= h < two64)%Z -> (0 <= digest fs h < two64)%Z.
Proof.
  revert h; induction fs as [|f fs IH]; intros h Hh; [exact Hh|].
  unfold digest in *. cbn [fold_left]. apply IH.
  unfold hashFile. now repeat apply fnvWrite_range.
Qed.

(** The fingerprint that [hashDir] returns is a 64-bit unsigned value,
    for every watcher and tree. *)
Theorem fingerprint_is_uint64 (w : Watcher) (root : entry) :
  (0 <= resHash (hashDir w root) < 2 ^ 64)%Z.
Proof.
  destruct (hashDir_results w root) as (Hh & _). rewrite Hh.
  apply (digest_range (accepted w root) offset64).
  split; [discriminate | reflexivity].
Qed.

(** The relative path, the size in decimal and the text of the time
    go into the hash with nothing between them: two files whose path
    followed by the size read the same, and whose times read the same,
    get the same digest from any starting value. *)
Theorem hashFile_fields_run_together
    (h : Z) (p1 p2 : string) (i1 i2 : FileInfo) :
  p1 ++ Sprintf_d (Size i1) = p2 ++ Sprintf_d (Size i2) ->
  timeString (ModTime i1) = timeString (ModTime i2) ->
  hashFile h p1 i1 = hashFile h p2 i2.
Proof.
  intros Hps Ht. unfold hashFile.
  rewrite <- (fnvWrite_app h p1), <- (fnvWrite_app h p2).
  now rewrite Hps, Ht.
Qed.

(* ================================================================= *)
(** ** What the scan depends on *)

(** The result of [hashDir] depends on the tree only through the files
    that the traversal reaches and [shouldProcess] accepts: two trees
    with the same such files, in the same order, give the same
    fingerprint, the same [depChanged] and the same stored time. *)
Theorem scan_depends_on_accepted_files (w : Watcher) (r1 r2 : entry) :
  accepted w r1 = accepted w r2 ->
  resHash (hashDir w r1) = resHash (hashDir w r2)
  /\ resDep (hashDir w r1) = resDep (hashDir w r2)
  /\ resWatcher (hashDir w r1) = resWatcher (hashDir w r2).
Proof.
  intros H. destruct (hashDir_same_accepted w r1 r2 H) as (Hh & Hd & _ & Hw).
  auto.
Qed.

Lemma visitNames_app (p : Path) (a b : list entry) :
  visitNames visit p (a ++ b)
  = (visitNames visit p a ++ visitNames visit p b)%list.
Proof.
  induction a as [|c a IH]; [reflexivity|].
  cbn [app visitNames]. now rewrite IH, app_assoc.
Qed.

Lemma hiddenDir_visit_nil (p : Path) (n : string) (sz : Z) (mt : Time)
    (rd : option error) (cs : list entry) :
  hiddenDir n = true -> visit p (Dir n sz mt rd cs) = [].
Proof. intros H. cbn [visit]. rewrite H. now destruct rd. Qed.

(** A subdirectory whose name begins with a dot (and is not ["."]) is
    not entered: whatever it holds, and whether or not it can be read,
    the fingerprint, [depChanged] and the stored time are the same. *)
Theorem hidden_subdirectory_ignored
    (w : Watcher) (rn : string) (rsz : Z) (rmt : Time)
    (before after : list entry) (n : string)
    (sz1 sz2 : Z) (mt1 mt2 : Time) (rd1 rd2 : option error)
    (cs1 cs2 : list entry) :
  hiddenDir n = true ->
  let r1 := Dir rn rsz rmt None (before ++ Dir n sz1 mt1 rd1 cs1 :: after) in
  let r2 := Dir rn rsz rmt None (before ++ Dir n sz2 mt2 rd2 cs2 :: after) in
  resHash (hashDir w r1) = resHash (hashDir w r2)
  /\ resDep (hashDir w r1) = resDep (hashDir w r2)
  /\ resWatcher (hashDir w r1) = resWatcher (hashDir w r2).
Proof.
  intros Hh. cbn zeta.
  match goal with
  | |- resHash (hashDir w ?a) = resHash (hashDir w ?b) /\ _ =>
      assert (Hacc : accepted w a = accepted w b)
  end.
  { unfold accepted. f_equal. cbn [visit].
    destruct (hiddenDir rn); [reflexivity|].
    rewrite !visitNames_app. cbn [visitNames entryName].
    now rewrite !(hiddenDir_visit_nil _ n) by exact Hh. }
  destruct (hashDir_same_accepted _ _ _ Hacc) as (H1 & H2 & _ & H4). auto.
Qed.

(* ================================================================= *)
(** ** More on dependency detection *)

(** With no dependency file configured, [hashDir] never reports
    [depChanged] and leaves the watcher as it was. *)
Theorem no_dependency_file_no_detection (w : Watcher) (root : entry) :
  depFile w = "" ->
  resDep (hashDir w root) = false /\ resWatcher (hashDir w root) = w.
Proof.
  intros Hd. destruct (hashDir_results w root) as (_ & Hdep & _ & Hw).
  assert (Hnone : depFiles w root = []).
  { unfold depFiles. induction (accepted w root) as [|f fs IH]; [reflexivity|].
    cbn [filter]. unfold isDepFile at 1. rewrite Hd. exact IH. }
  rewrite Hdep, Hw, Hnone. split; [reflexivity|].
  apply set_prevDepMTime_same.
Qed.

(** The dependency check goes by base name, so several accepted files
    can take part.  When two of them have different modification
    times, every scan reports [depChanged], whatever time is stored:
    the detection never settles. *)
Theorem dependency_detection_never_settles
    (w : Watcher) (root : entry) (f g : Path * FileInfo) :
  In f (depFiles w root) -> In g (depFiles w root) ->
  ModTime (snd f) <> ModTime (snd g) ->
  forall t, resDep (hashDir (set_prevDepMTime t w) root) = true.
Proof.
  intros Hf Hg Hne t.
  destruct (hashDir_results (set_prevDepMTime t w) root) as (_ & Hdep & _).
  rewrite Hdep.
  change (depFiles (set_prevDepMTime t w) root) with (depFiles w root).
  change (prevDepMTime (set_prevDepMTime t w)) with t.
  apply changedFrom_true_iff.
  destruct (Time_eqb (ModTime (snd f)) t) eqn:E.
  - apply Time_eqb_eq in E. exists (ModTime (snd g)). split.
    + unfold modTimes.
      now apply (in_map (fun x : Path * FileInfo => ModTime (snd x))).
    + congruence.
  - apply Time_eqb_neq in E. exists (ModTime (snd f)). split.
    + unfold modTimes.
      now apply (in_map (fun x : Path * FileInfo => ModTime (snd x))).
    + exact E.
Qed.

Lemma uniform_times_settled (t : Time) (fs : list (Path * FileInfo)) :
  (forall f g, In f fs -> In g fs -> ModTime (snd f) = ModTime (snd g)) ->
  changedFrom (List.last (modTimes fs) t) (modTimes fs) = false.
Proof.
  intros Hall.
  destruct (changedFrom (List.last (modTimes fs) t) (modTimes fs)) eqn:E;
    [|reflexivity].
  apply changedFrom_true_iff in E as (x & Hx & Hne). exfalso. apply Hne.
  assert (Hnil : modTimes fs <> []).
  { intros E. rewrite E in Hx. exact Hx. }
  pose proof (last_in_list t _ Hnil) as Hl.
  unfold modTimes in Hx, Hl.
  apply in_map_iff in Hx as (fx & <- & Hfx).
  apply in_map_iff in Hl as (fl & Hfl & Hin).
  unfold modTimes. rewrite <- Hfl. now apply Hall.
Qed.

(** When all the dependency files reached carry one modification time
    (as a single dependency file does), a second scan of the same tree
    settles: the same fingerprint, no [depChanged], and the watcher as
    the first scan left it. *)
Theorem rescan_settles (w : Watcher) (root : entry) :
  (forall f g, In f (depFiles w root) -> In g (depFiles w root) ->
               ModTime (snd f) = ModTime (snd g)) ->
  let w1 := resWatcher (hashDir w root) in
  resHash (hashDir w1 root) = resHash (hashDir w root)
  /\ resDep (hashDir w1 root) = false
  /\ resWatcher (hashDir w1 root) = w1.
Proof.
  intros Hall. cbn zeta.
  destruct (hashDir_results w root) as (Hh & _ & _ & Hw). rewrite Hw, Hh.
  set (T := List.last (modTimes (depFiles w root)) (prevDepMTime w)).
  destruct (hashDir_results (set_prevDepMTime T w) root) as (Hh' & Hd' & _ & Hw').
  rewrite Hh', Hd', Hw'.
  change (depFiles (set_prevDepMTime T w) root) with (depFiles w root).
  change (accepted (set_prevDepMTime T w) root) with (accepted w root).
  change (prevDepMTime (set_prevDepMTime T w)) with T.
  assert (Hsame : changedFrom T (modTimes (depFiles w root)) = false)
    by (now apply uniform_times_settled).
  split; [reflexivity|]. split; [exact Hsame|].
  rewrite (changedFrom_false_last _ _ Hsame). reflexivity.
Qed.

(* ================================================================= *)
(** ** [filepath.Base] of the dependency file *)

Lemma stripTrailing_noSlash (n : string) :
  hasSlash n = false -> stripTrailing n = n.
Proof.
  induction n as [|c n IH]; [reflexivity|]. cbn [hasSlash stripTrailing].
  intros H. apply orb_false_iff in H as [Hc Hn].
  rewrite Hc, (IH Hn). reflexivity.
Qed.

Lemma stripTrailing_app (a n : string) :
  n <> "" -> hasSlash n = false -> stripTrailing (a ++ n) = a ++ n.
Proof.
  intros Hne Hn. induction a as [|c a IH].
  - now apply stripTrailing_noSlash.
  - cbn [append stripTrailing]. rewrite IH.
    destruct (String.eqb_spec (a ++ n) "") as [E|_];
      [|now rewrite andb_false_r].
    destruct a; [contradiction | discriminate E].
Qed.

Lemma afterLastSlash_noSlash (n acc : string) :
  hasSlash n = false -> afterLastSlash n acc = acc ++ n.
Proof.
  revert acc; induction n as [|c n IH]; intros acc H.
  - cbn. clear. induction acc as [|x acc IHa]; [reflexivity|].
    cbn. now rewrite <- IHa.
  - cbn [hasSlash] in H. apply orb_false_iff in H as [Hc Hn].
    cbn [afterLastSlash]. rewrite Hc, (IH _ Hn).
    clear. induction acc as [|x acc IHa]; [reflexivity|].
    cbn. now rewrite IHa.
Qed.

Lemma afterLastSlash_app_slash (a n acc : string) :
  afterLastSlash (a ++ String "/" n) acc = afterLastSlash n "".
Proof.
  revert acc; induction a as [|c a IH]; intros acc; [reflexivity|].
  cbn [append afterLastSlash]. destruct (isSlash c); apply IH.
Qed.

Lemma Base_of_name (n : string) :
  n <> "" -> hasSlash n = false -> Base n = n.
Proof.
  intros Hne Hn. unfold Base.
  destruct (String.eqb_spec n ""); [contradiction|].
  rewrite (stripTrailing_noSlash n Hn), (afterLastSlash_noSlash n "" Hn).
  cbn [append]. destruct (String.eqb_spec n ""); [contradiction | reflexivity].
Qed.

Lemma Base_of_joined (d n : string) :
  n <> "" -> hasSlash n = false -> Base (d ++ String "/" n) = n.
Proof.
  intros Hne Hn. unfold Base.
  destruct (String.eqb_spec (d ++ String "/" n) "") as [E|_].
  { destruct d; discriminate E. }
  replace (stripTrailing (d ++ String "/" n)) with (d ++ String "/" n).
  - rewrite afterLastSlash_app_slash, (afterLastSlash_noSlash n "" Hn).
    cbn [append]. destruct (String.eqb_spec n ""); [contradiction | reflexivity].
  - symmetry.
    replace (d ++ String "/" n) with ((d ++ "/") ++ n).
    + now apply stripTrailing_app.
    + clear. induction d as [|c d IH]; [reflexivity|]. cbn. now rewrite IH.
Qed.

(** Only the base name of the dependency file is compared: a watcher
    configured with [d/n] and one configured with [n] alone ([n] a
    plain file name) detect the same dependency changes on every tree,
    so a file named [n] in any directory counts. *)
Theorem dependency_file_directory_ignored
    (dr : string) (iv : Z) (b r dc : string) (inc exc : list string)
    (ph : Z) (pt : Time) (pr : option Cmd) (d n : string) (root : entry) :
  n <> "" -> hasSlash n = false ->
  let w1 := mkWatcher dr iv b r inc exc (d ++ "/" ++ n) dc ph pt pr in
  let w2 := mkWatcher dr iv b r inc exc n dc ph pt pr in
  depFiles w1 root = depFiles w2 root
  /\ resHash (hashDir w1 root) = resHash (hashDir w2 root)
  /\ resDep (hashDir w1 root) = resDep (hashDir w2 root)
  /\ prevDepMTime (resWatcher (hashDir w1 root))
     = prevDepMTime (resWatcher (hashDir w2 root)).
Proof.
  intros Hne Hn. cbn zeta.
  set (w1 := mkWatcher dr iv b r inc exc (d ++ "/" ++ n) dc ph pt pr).
  set (w2 := mkWatcher dr iv b r inc exc n dc ph pt pr).
  assert (Hacc : accepted w1 root = accepted w2 root) by reflexivity.
  assert (Hdf : depFiles w1 root = depFiles w2 root).
  { unfold depFiles. rewrite Hacc. apply filter_ext. intros f.
    unfold isDepFile, w1, w2. cbn [depFile dir].
    change (d ++ "/" ++ n) with (d ++ String "/" n).
    rewrite (Base_of_joined d n Hne Hn), (Base_of_name n Hne Hn).
    destruct (String.eqb_spec n ""); [contradiction|].
    destruct (String.eqb_spec (d ++ String "/" n) "") as [E|_];
      [destruct d; discriminate E | reflexivity]. }
  split; [exact Hdf|].
  destruct (hashDir_results w1 root) as (Hh1 & Hd1 & _ & Hw1).
  destruct (hashDir_results w2 root) as (Hh2 & Hd2 & _ & Hw2).
  rewrite Hh1, Hh2, Hd1, Hd2, Hw1, Hw2, Hdf, Hacc. repeat split.
Qed.

(* ================================================================= *)
(** ** More on [startApp] *)



(* ================================================================= *)
(** ** The whole program *)

Lemma In_without (x id : nat) (l : list nat) :
  In x (without id l) <-> In x l /\ x <> id.
Proof.
  unfold without. rewrite filter_In, negb_true_iff, Nat.eqb_neq. tauto.
Qed.

Lemma memb_true_iff (id : nat) (l : list nat) :
  memb id l = true <-> In id l.
Proof.
  unfold memb. rewrite existsb_exists. split.
  - intros (x & Hin & Hx). apply Nat.eqb_eq in Hx. now subst.
  - intros H. exists id. split; [exact H | apply Nat.eqb_refl].
Qed.

Lemma supInv_supView (a b : Sys) : supView a = supView b -> supInv a -> supInv b.
Proof.
  unfold supView, supInv. intros H. injection H as Hp Hn Hl Hq Hk.
  now rewrite Hp, Hn, Hk.
Qed.

Lemma watchInv_supView (a b : Sys) :
  supView a = supView b -> watchInv a -> watchInv b.
Proof.
  unfold supView, watchInv. intros H. injection H as Hp Hn Hl Hq Hk.
  now rewrite Hp, Hn, Hl, Hq.
Qed.

Lemma startApp_watchInv (s : Sys) : watchInv s -> watchInv (snd (startApp s)).
Proof.
  intros (Hlive & Hcur & Hpend). unfold watchInv.
  unfold_prog.
  destruct (process (watcher s)) as [c|] eqn:Hc;
    [destruct (Process c) as [pid|] eqn:Hp|];
    reduce_prog; destruct (starts s (nCmds s)) eqn:Hs; reduce_prog;
    (split; [|split]).
  all: try (intros c' Hc'; discriminate Hc').
  all: try (intros c' Hc'; injection Hc' as <-; now left).
  all: try (intros id [<- | Hin]; [lia | apply Hpend in Hin; lia]).
  all: try (intros id Hin; apply Hpend in Hin; lia).
  all: try (intros id [<- | Hin]; [now left | right]).
  all: try (intros id Hin).
  all: try (apply In_without in Hin as [Hin _]).
  all: try (now apply Hlive).
  all: try (intros c' Hc'; rewrite Hc in Hc'; injection Hc' as <-;
            right; now apply (Hcur c)).
  all: try (intros c' Hc'; rewrite Hc in Hc'; injection Hc' as <-;
            now apply (Hcur c)).
  all: try (rewrite Hc in Hin; now apply Hcur).
  all: try (now apply Hcur).
Qed.

Lemma act_watchInv (a : Action) (s : Sys) : watchInv s -> watchInv (snd (act a s)).
Proof.
  intros H. destruct a as [|id|id].
  - apply (startApp_watchInv s) in H. unfold act, bind, ret.
    destruct (startApp s) as [r s']. exact H.
  - destruct H as (Hlive & Hcur & Hpend). repeat split; cbn.
    + intros x Hx. apply In_without in Hx as [Hx _]. now apply Hlive.
    + exact Hcur.
    + exact Hpend.
  - unfold act.
    destruct (memb id (pending s) && negb (memb id (live s))) eqn:E;
      [|exact H].
    apply andb_true_iff in E as [_ Hdead]. apply negb_true_iff in Hdead.
    destruct H as (Hlive & Hcur & Hpend). repeat split; cbn.
    + intros x Hx. apply In_without. split; [now apply Hlive|].
      intros ->. apply memb_true_iff in Hx. congruence.
    + intros c Hc. discriminate Hc.
    + intros x Hx. apply In_without in Hx as [Hx _]. now apply Hpend.
Qed.

Lemma afterBuild_supView (r : option error) (s : Sys) :
  supView (snd (afterBuild r s))
  = match r with
    | Some _ => supView s
    | None => supView (snd (startApp s))
    end.
Proof. destruct r; unfold_prog; case_prog; reflexivity. Qed.

(** A cycle touches the supervisor's state only through [startApp]. *)
Lemma iteration_supView (root : entry) (s : Sys) :
  supView (snd (iteration root s)) = supView s
  \/ exists s0,
       supView s0 = supView s
       /\ supView (snd (iteration root s)) = supView (snd (startApp s0)).
Proof.
  destruct (Z.eq_dec (digest (accepted (watcher s) root) offset64)
                     (prevHash (watcher s))) as [Heq | Hne].
  - left. destruct (iteration_unchanged root s Heq) as (logs & _ & Hi).
    rewrite Hi. reflexivity.
  - destruct (iteration_changed root s Hne) as (logs & _ & Hi).
    rewrite Hi. unfold bind.
    match goal with
    | |- context [runBuild ?d ?m] =>
        pose proof (runBuild_frame d m) as (Hw & Hn & Hl & Hp & Hk & _);
        destruct (runBuild d m) as [r s1]
    end.
    cbn [snd watcher nCmds live pending killed] in Hw, Hn, Hl, Hp, Hk.
    assert (Hv : supView s1 = supView s).
    { unfold supView. now rewrite Hw, Hn, Hl, Hp, Hk. }
    rewrite afterBuild_supView. destruct r as [e|].
    + left. exact Hv.
    + right. exists s1. split; [exact Hv | reflexivity].
Qed.

Lemma step_invariants (t : Step) (s : Sys) :
  supInv s /\ watchInv s -> supInv (snd (step t s)) /\ watchInv (snd (step t s)).
Proof.
  intros [Hs Hw]. destruct t as [root | a]; cbn [step].
  - destruct (iteration_supView root s) as [Hv | (s0 & H0 & Hv)].
    + split; [eapply supInv_supView | eapply watchInv_supView];
        try (symmetry; exact Hv); assumption.
    + assert (Hs0 : supInv s0) by (eapply supInv_supView; [symmetry; exact H0 | exact Hs]).
      assert (Hw0 : watchInv s0) by (eapply watchInv_supView; [symmetry; exact H0 | exact Hw]).
      split; [eapply supInv_supView | eapply watchInv_supView];
        try (symmetry; exact Hv).
      * now apply startApp_supInv.
      * now apply startApp_watchInv.
  - split; [now apply act_supInv | now apply act_watchInv].
Qed.

Lemma program_invariants (ts : list Step) (s : Sys) :
  supInv s /\ watchInv s ->
  supInv (snd (program ts s)) /\ watchInv (snd (program ts s)).
Proof.
  revert s; induction ts as [|t ts IH]; intros s H; [exact H|].
  cbn [program]. unfold bind.
  pose proof (step_invariants t s H) as Ht.
  destruct (step t s) as [u s']. apply IH. exact Ht.
Qed.

(** Through any run of the program from a new watcher (cycles of the
    loop, restarts, process exits and exit-watcher runs, in any
    order): the handle holds at most one command and never one that
    was killed; every live application process, that of the handle
    included, has its exit-watcher waiting. *)
Theorem program_keeps_processes_watched
    (d : string) (i : Z) (b r df dc : string) (inc exc : list string)
    (ex : nat -> RunOutcome) (st : nat -> bool) (ts : list Step) :
  let s := snd (program ts (initSys (NewWatcher d i b r df dc inc exc) ex st)) in
  (List.length (tracked s) <= 1)%nat
  /\ (forall c, In c (tracked s) ->
                ~ In (cmdId c) (killed s) /\ In (cmdId c) (pending s))
  /\ (forall id, In id (live s) -> In id (pending s)).
Proof.
  cbn zeta.
  assert (H0 : supInv (initSys (NewWatcher d i b r df dc inc exc) ex st)
               /\ watchInv (initSys (NewWatcher d i b r df dc inc exc) ex st)).
  { split; [now apply supInv_init|].
    repeat split; cbn; intros; try contradiction; discriminate. }
  destruct (program_invariants ts _ H0) as [[Hcur _] (Hlive & Hwc & _)].
  unfold tracked.
  destruct (process (watcher (snd (program ts _)))) as [c|] eqn:Hp; cbn.
  - split; [lia|]. split; [|exact Hlive].
    intros c' [<- | []]. split; [now apply Hcur | now apply Hwc].
  - split; [lia|]. split; [|exact Hlive]. intros c' [].
Qed.

Lemma iteration_sameConfig (root : entry) (s : Sys) :
  sameConfig (watcher (snd (iteration root s))) (watcher s).
Proof. now destruct (iteration_post root s) as (H & _). Qed.

Lemma sameConfig_trans (a b c : Watcher) :
  sameConfig a b -> sameConfig b c -> sameConfig a c.
Proof. unfold sameConfig. intuition congruence. Qed.

(** No step of the program changes the configuration of the watcher:
    root, interval, commands, dependency file and rule lists are the
    same after any run, from any state. *)
Theorem program_never_changes_config (ts : list Step) (s : Sys) :
  sameConfig (watcher (snd (program ts s))) (watcher s).
Proof.
  revert s; induction ts as [|t ts IH]; intros s; [apply sameConfig_refl|].
  cbn [program]. unfold bind.
  assert (Ht : sameConfig (watcher (snd (step t s))) (watcher s)).
  { destruct t as [root | a]; cbn [step].
    - apply iteration_sameConfig.
    - now destruct (act_sameButProcess a s) as (H & _). }
  destruct (step t s) as [u s']. cbn [snd] in Ht.
  eapply sameConfig_trans; [apply IH | exact Ht].
Qed.

(* ================================================================= *)
(** ** Every cycle ends in one sleep *)








(* ================================================================= *)
(** ** The first cycle, and a dependency step that failed *)

(** A new watcher's first cycle over a tree with no accepted file
    (empty, or wholly excluded or hidden) finds a change: the stored
    fingerprint starts at 0 and the digest of nothing is the FNV
    offset basis.  The cycle stores that digest and goes on to the
    build, without the dependency step. *)
Theorem first_cycle_builds_on_empty_tree
    (d : string) (i : Z) (b r df dc : string) (inc exc : list string)
    (ex : nat -> RunOutcome) (st : nat -> bool) (root : entry) :
  let w := NewWatcher d i b r df dc inc exc in
  accepted w root = [] ->
  resHash (hashDir w root) = offset64
  /\ resDep (hashDir w root) = false
  /\ exists logs,
       Forall isLog logs
       /\ iteration root (initSys w ex st)
          = (res <- runBuild false ;; afterBuild res)
              (mkSys (set_prevHash offset64 w) ex 0 st 0 [] [] []
                     (logs ++ [EvLog "Change detected, rebuilding..."])%list).
Proof.
  cbn zeta. intros Hacc.
  set (w := NewWatcher d i b r df dc inc exc) in *.
  assert (Hdf : depFiles w root = []) by (unfold depFiles; now rewrite Hacc).
  destruct (hashDir_results w root) as (Hh & Hd & _).
  rewrite Hh, Hd, Hacc, Hdf. split; [reflexivity|]. split; [reflexivity|].
  assert (Hne : digest (accepted (watcher (initSys w ex st)) root) offset64
                <> prevHash (watcher (initSys w ex st))).
  { cbn [watcher initSys]. rewrite Hacc. discriminate. }
  destruct (iteration_changed root (initSys w ex st) Hne) as (logs & Hl & Hi).
  exists logs. split; [exact Hl|]. rewrite Hi.
  cbn [watcher initSys exits nRuns starts nCmds live pending killed trace].
  unfold scanned. rewrite Hacc, Hdf. reflexivity.
Qed.

Lemma depFiles_sameConfig (a b : Watcher) (root : entry) :
  sameConfig a b -> depFiles a root = depFiles b root.
Proof.
  intros Hc. unfold depFiles. rewrite (accepted_sameConfig a b root Hc).
  destruct Hc as (Hdir & _ & _ & _ & _ & _ & Hdf & _).
  apply filter_ext. intros f. unfold isDepFile. now rewrite Hdir, Hdf.
Qed.

(** The scan stores the time of the dependency file before the
    dependency command runs.  So after a cycle, however its commands
    ended (the dependency command may have failed), a later scan of a
    tree whose dependency files are the same reports no dependency
    change, even when other files changed: the dependency command is
    not tried again. *)
Theorem failed_dependency_step_not_retried
    (root root' : entry) (s : Sys) (l : list Action) :
  depFiles (watcher s) root' = depFiles (watcher s) root ->
  (forall f g, In f (depFiles (watcher s) root) ->
               In g (depFiles (watcher s) root) ->
               ModTime (snd f) = ModTime (snd g)) ->
  let s1 := snd (acts l (snd (iteration root s))) in
  resDep (hashDir (watcher s1) root') = false.
Proof.
  intros Hsame Hall. cbn zeta.
  destruct (iteration_post root s) as (Hcfg & _ & Ht).
  destruct (acts_sameButProcess l (snd (iteration root s))) as (Hc' & _ & Ht').
  set (s1 := snd (acts l (snd (iteration root s)))) in *.
  assert (Hcs : sameConfig (watcher s1) (watcher s))
    by (eapply sameConfig_trans; eassumption).
  destruct (hashDir_results (watcher s1) root') as (_ & Hd & _).
  rewrite Hd, (depFiles_sameConfig _ _ root' Hcs), Hsame, Ht', Ht.
  cbn [scanned prevDepMTime set_prevDepMTime].
  now apply uniform_times_settled.
Qed.

(** [runBuild] only runs shell commands: at most two, and it starts
    or kills no process and leaves the watcher, its handle included,
    as it was. *)
Theorem runBuild_only_runs_commands (d : bool) (s : Sys) :
  let s1 := snd (runBuild d s) in
  (nRuns s <= nRuns s1 <= nRuns s + 2)%nat
  /\ watcher s1 = watcher s /\ nCmds s1 = nCmds s
  /\ live s1 = live s /\ pending s1 = pending s /\ killed s1 = killed s
  /\ (d && negb (depCmd (watcher s) =? "") = false ->
      (nRuns s1 <= nRuns s + 1)%nat)
  /\ (buildCmd (watcher s) = "" -> depCmd (watcher s) = "" ->
      s1 = snd (emit (EvLog "Running build command...") s)).
Proof.
  cbn zeta. unfold_prog. case_prog;
    repeat match goal with
           | H : (_ =? _)%string = true |- _ => apply String.eqb_eq in H
           | H : (_ =? _)%string = false |- _ => apply String.eqb_neq in H
           end;
    repeat split; try lia; try reflexivity;
    intros; try discriminate; try congruence.
Qed.

End Fingerprint.

(* ================================================================= *)
(** ** The theorems at concrete inputs *)

Lemma hidden_directories_skipped_root_traversed_witness :
  walk (hashDirFn sampleTimeString) [".git"] gitDir
       (mkScan offset64 false (mainWatcher defaultFlags) [])
  = (ErrSkipDir, mkScan offset64 false (mainWatcher defaultFlags) [])
  /\ visit [".git"] gitDir = [].
Proof.
  destruct (hidden_directories_skipped_root_traversed
              sampleTimeString defaultFlags) as (_ & _ & H).
  destruct (H [".git"] ".git" 4096%Z (sampleTime 1) None
              [File "hook.go" 1 (sampleTime 1)]
              (mkScan offset64 false (mainWatcher defaultFlags) []))
    as (Hw & Hv & _); [discriminate | reflexivity |].
  split; [exact Hw | exact Hv].
Defined.

(** The claim C6 fails where two accepted files carry the name of the
    dependency file: after a first scan of [twoModulesTree] the stored
    time is the one of [sub/go.mod]; the next scan of the same tree
    meets [go.mod] with another time and reports [depChanged], and
    ends with the stored time it began with, not with the time that
    differed. *)
Lemma stored_time_not_the_differing_one :
  let w1 := resWatcher (hashDir sampleTimeString sampleWatcher twoModulesTree) in
  let r := hashDir sampleTimeString w1 twoModulesTree in
  prevDepMTime w1 = sampleTime 7
  /\ modTimes (depFiles w1 twoModulesTree) = [sampleTime 9; sampleTime 7]
  /\ resDep r = true
  /\ prevDepMTime (resWatcher r) = prevDepMTime w1
  /\ prevDepMTime (resWatcher r) <> sampleTime 9.
Proof. cbv zeta. repeat split; vm_compute; [reflexivity .. | discriminate]. Qed.

(** The claim C2 fails at a root that cannot be reached: [hashDir]
    returns no error, and the cycle goes on to build and restart. *)
Lemma root_failure_not_surfaced :
  resErr (hashDir sampleTimeString sampleWatcher missingRoot) = None
  /\ trace (snd (iteration sampleTimeString missingRoot sampleSys))
     = [EvLog "Error accessing .: lstat .: no such file or directory";
        EvLog "Change detected, rebuilding...";
        EvLog "Running build command...";
        EvRun ["/bin/sh"; "-c"; "go build -o app ."] 0%Z;
        EvLog "Starting app...";
        EvStart 0 ["/bin/sh"; "-c"; "./app"] true;
        EvSleep 1000%Z].
Proof. split; vm_compute; reflexivity. Qed.

Lemma shouldProcess_rules_witness :
  shouldProcess sampleWatcher "sub/run.log" = false
  /\ shouldProcess sampleWatcher "main.go" = true.
Proof.
  split.
  - apply (proj1 (shouldProcess_rules sampleWatcher "sub/run.log")).
    exists ".log". split; [now left|]. right. now exists "sub/run".
  - apply (proj2 (proj2 (shouldProcess_rules sampleWatcher "main.go"))).
    + apply anyRule_false_iff. reflexivity.
    + discriminate.
    + exists ".go". split; [now left|]. right. now exists "main".
Defined.

Lemma build_sequence_witness :
  fst (runBuild true failingSys) <> None
  /\ nCmds (snd (afterBuild (fst (runBuild true failingSys))
                            (snd (runBuild true failingSys)))) = 0%nat.
Proof.
  assert (H : fst (runBuild true failingSys) <> None) by (vm_compute; discriminate).
  split; [exact H|].
  apply (proj1 (proj2 (proj2 (build_sequence true failingSys))) H).
Defined.

Lemma fingerprint_stored_before_build_witness :
  resHash (hashDir sampleTimeString (watcher failingSys) sampleTree)
  <> prevHash (watcher failingSys)
  /\ prevHash (watcher (snd (iteration sampleTimeString sampleTree failingSys)))
     = resHash (hashDir sampleTimeString (watcher failingSys) sampleTree).
Proof.
  assert (H : resHash (hashDir sampleTimeString (watcher failingSys) sampleTree)
              <> prevHash (watcher failingSys)) by (vm_compute; discriminate).
  split; [exact H|].
  apply (proj1 (proj2 (fingerprint_stored_before_build
                         sampleTimeString sampleTree failingSys H))).
Defined.

Lemma depChanged_exactly_witness :
  depFile sampleWatcher <> ""
  /\ prevDepMTime (resWatcher (hashDir sampleTimeString sampleWatcher sampleTree))
     = List.last (modTimes (depFiles sampleWatcher sampleTree))
                 (prevDepMTime sampleWatcher).
Proof.
  assert (H : depFile sampleWatcher <> "") by discriminate.
  split; [exact H|].
  apply (proj1 (proj2 (proj2 (depChanged_exactly
                                sampleTimeString sampleWatcher sampleTree H)))).
Defined.

Lemma empty_exclude_rule_rejects_everything_witness :
  shouldProcess (mainWatcher trailingCommaFlags) "main.go" = false
  /\ resHash (hashDir sampleTimeString (mainWatcher trailingCommaFlags) sampleTree)
     = offset64.
Proof.
  assert (H : (exists e, flagExclude trailingCommaFlags = e ++ ",")
              \/ (exists e, flagExclude trailingCommaFlags = "," ++ e)
              \/ (exists a b, flagExclude trailingCommaFlags = a ++ ",," ++ b))
    by (left; now exists ".git").
  split.
  - apply (proj1 (empty_exclude_rule_rejects_everything
                    sampleTimeString trailingCommaFlags sampleTree H)).
  - apply (proj1 (proj2 (proj2 (empty_exclude_rule_rejects_everything
                                  sampleTimeString trailingCommaFlags
                                  sampleTree H)))).
Defined.

Lemma empty_include_rule_accepts_everything_witness :
  shouldProcess (mainWatcher trailingCommaFlags) "README.md"
  = negb (anyRule "README.md" (excludes (mainWatcher trailingCommaFlags))).
Proof.
  apply (empty_include_rule_accepts_everything trailingCommaFlags "README.md").
  left. now exists ".go".
Defined.

Lemma hashFile_fields_run_together_witness :
  hashFile sampleTimeString offset64 "a"
           (mkFileInfo "a" 12 (sampleTime 5) false)
  = hashFile sampleTimeString offset64 "a1"
             (mkFileInfo "a1" 2 (sampleTime 5) false).
Proof.
  apply (hashFile_fields_run_together sampleTimeString offset64 "a" "a1");
    reflexivity.
Defined.

Lemma scan_depends_on_accepted_files_witness :
  accepted sampleWatcher treeWithLog = accepted sampleWatcher treeWithoutLog
  /\ resHash (hashDir sampleTimeString sampleWatcher treeWithLog)
     = resHash (hashDir sampleTimeString sampleWatcher treeWithoutLog).
Proof.
  assert (H : accepted sampleWatcher treeWithLog
              = accepted sampleWatcher treeWithoutLog) by reflexivity.
  split; [exact H|].
  apply (proj1 (scan_depends_on_accepted_files
                  sampleTimeString sampleWatcher treeWithLog treeWithoutLog H)).
Defined.

Lemma hidden_subdirectory_ignored_witness :
  resHash (hashDir sampleTimeString sampleWatcher
             (Dir "." 4096 (sampleTime 1) None
                ([File "main.go" 10 (sampleTime 5)]
                   ++ Dir ".git" 4096 (sampleTime 1) None
                          [File "hook.go" 1 (sampleTime 1)] :: [])))
  = resHash (hashDir sampleTimeString sampleWatcher
               (Dir "." 4096 (sampleTime 1) None
                  ([File "main.go" 10 (sampleTime 5)]
                     ++ Dir ".git" 4096 (sampleTime 8) (Some "permission denied")
                            [] :: []))).
Proof.
  apply (hidden_subdirectory_ignored sampleTimeString sampleWatcher).
  reflexivity.
Defined.

Lemma no_dependency_file_no_detection_witness :
  resDep (hashDir sampleTimeString (mainWatcher defaultFlags) sampleTree) = false
  /\ resWatcher (hashDir sampleTimeString (mainWatcher defaultFlags) sampleTree)
     = mainWatcher defaultFlags.
Proof.
  apply (no_dependency_file_no_detection sampleTimeString). reflexivity.
Defined.

Lemma dependency_detection_never_settles_witness :
  resDep (hashDir sampleTimeString
            (set_prevDepMTime (sampleTime 9) sampleWatcher) twoModulesTree)
  = true.
Proof.
  apply (dependency_detection_never_settles sampleTimeString sampleWatcher
           twoModulesTree
           (["go.mod"], mkFileInfo "go.mod" 4 (sampleTime 9) false)
           (["sub"; "go.mod"], mkFileInfo "go.mod" 3 (sampleTime 7) false)).
  - left. reflexivity.
  - right. left. reflexivity.
  - discriminate.
Defined.

Lemma rescan_settles_witness :
  resDep (hashDir sampleTimeString
            (resWatcher (hashDir sampleTimeString sampleWatcher sampleTree))
            sampleTree)
  = false.
Proof.
  apply (proj1 (proj2 (rescan_settles sampleTimeString sampleWatcher sampleTree
    (fun f g Hf Hg =>
       match Hf, Hg with
       | or_introl ef, or_introl eg =>
           eq_trans (f_equal (fun x => ModTime (snd x)) (eq_sym ef))
                    (f_equal (fun x => ModTime (snd x)) eg)
       | or_intror ff, _ => False_ind _ ff
       | _, or_intror fg => False_ind _ fg
       end)))).
Defined.

Lemma dependency_file_directory_ignored_witness :
  resDep (hashDir sampleTimeString
            (mkWatcher "." 1000 "make" "./app" [] []
                       ("backend" ++ "/" ++ "go.mod") "go mod tidy"
                       0%Z zeroTime None)
            twoModulesTree)
  = resDep (hashDir sampleTimeString
              (mkWatcher "." 1000 "make" "./app" [] [] "go.mod" "go mod tidy"
                         0%Z zeroTime None)
              twoModulesTree).
Proof.
  apply (dependency_file_directory_ignored sampleTimeString
           "." 1000 "make" "./app" "go mod tidy" [] [] 0%Z zeroTime None
           "backend" "go.mod" twoModulesTree);
    [discriminate | reflexivity].
Defined.


Lemma first_cycle_builds_on_empty_tree_witness :
  accepted sampleWatcher emptyTree = []
  /\ resHash (hashDir sampleTimeString sampleWatcher emptyTree) = offset64.
Proof.
  assert (H : accepted (NewWatcher "." 1000 "go build -o app ." "./app"
                                   "go.mod" "go mod tidy" [".go"; ".mod"]
                                   [".log"]) emptyTree = [])
    by reflexivity.
  split; [exact H|].
  apply (proj1 (first_cycle_builds_on_empty_tree sampleTimeString
                  "." 1000 "go build -o app ." "./app" "go.mod" "go mod tidy"
                  [".go"; ".mod"] [".log"] (fun _ => Exited 0) (fun _ => true)
                  emptyTree H)).
Defined.

Lemma failed_dependency_step_not_retried_witness :
  resDep (hashDir sampleTimeString
            (watcher (snd (acts [ActRestart]
                            (snd (iteration sampleTimeString sampleTree
                                            failingSys)))))
            editedTree)
  = false.
Proof.
  assert (E : depFiles (watcher failingSys) sampleTree
              = [(["go.mod"], mkFileInfo "go.mod" 4 (sampleTime 9) false)])
    by (vm_compute; reflexivity).
  assert (E' : depFiles (watcher failingSys) editedTree
               = depFiles (watcher failingSys) sampleTree)
    by (vm_compute; reflexivity).
  refine (failed_dependency_step_not_retried sampleTimeString
            sampleTree editedTree failingSys [ActRestart] E' _).
  intros f g Hf Hg. rewrite E in Hf, Hg.
  destruct Hf as [<- | []]. destruct Hg as [<- | []]. reflexivity.
Defined.
